(** * Project board (app.ts): store, validator, form and lanes

    A shallow embedding of [src/app.ts] together with the slice of the
    ECMAScript runtime the program relies on (string trimming, the unary
    [+] coercion, [Number.prototype.toString], array [push], [slice],
    [find] and [filter]), followed by the properties of the store, the
    validator, the input form and the lanes. *)

From Stdlib Require Import ZArith String Ascii Bool Lia DecimalString Sorted.
From stdpp Require Import base list.

Local Open Scope Z_scope.

(** ** The ECMAScript values the program manipulates *)

Module JS.

Local Open Scope string_scope.
Local Open Scope Z_scope.

(** *** Strings

    A string is a sequence of code units; the embedding keeps the code
    units below 256, one [ascii] each, so [String.length] is the
    [length] property. *)

(** WhiteSpace and LineTerminator code units below 256: TAB, LF, VT, FF,
    CR, SP and NBSP. *)
Definition isWhiteSpace (c : ascii) : bool :=
  let n := N_of_ascii c in
  ((9 <=? n) && (n <=? 13) || (n =? 32) || (n =? 160))%N.

Fixpoint trimStart (s : list ascii) : list ascii :=
  match s with
  | c :: r => if isWhiteSpace c then trimStart r else s
  | [] => []
  end.

Definition trimEnd (s : list ascii) : list ascii :=
  rev (trimStart (rev s)).

(** [String.prototype.trim] *)
Definition trim (s : string) : string :=
  string_of_list_ascii (trimEnd (trimStart (list_ascii_of_string s))).

(** [s.length] *)
Definition length (s : string) : Z := Z.of_nat (String.length s).

(** *** Numbers

    A Number is NaN, an infinity, or a finite binary64 value [m * 2^e].
    [binary64] builds canonical values ([m] odd, or [m = 0] and
    [e = 0]); comparison and printing go by the value [m * 2^e], not by
    the pair.  The two zeros are one value: the program only compares
    numbers and prints them, and [-0] compares and prints as [0]. *)
Inductive number : Type :=
| NaN
| Infinity (negative : bool)
| Finite (m e : Z).

Definition zero : number := Finite 0 0.

(** The integer [z], as written in the program text or returned by
    [length]. *)
Definition of_Z (z : Z) : number := Finite z 0.

Definition compare_finite (m1 e1 m2 e2 : Z) : comparison :=
  let e := Z.min e1 e2 in
  (m1 * 2 ^ (e1 - e) ?= m2 * 2 ^ (e2 - e)).

(** The order of two numbers; [None] when one of them is NaN. *)
Definition compare (a b : number) : option comparison :=
  match a, b with
  | NaN, _ | _, NaN => None
  | Infinity na, Infinity nb =>
      Some (if na then (if nb then Eq else Lt) else (if nb then Gt else Eq))
  | Infinity na, Finite _ _ => Some (if na then Lt else Gt)
  | Finite _ _, Infinity nb => Some (if nb then Gt else Lt)
  | Finite m1 e1, Finite m2 e2 => Some (compare_finite m1 e1 m2 e2)
  end.

(** [a >= b] *)
Definition ge (a b : number) : bool :=
  match compare a b with
  | Some Gt | Some Eq => true
  | _ => false
  end.

(** [a <= b] *)
Definition le (a b : number) : bool :=
  match compare a b with
  | Some Lt | Some Eq => true
  | _ => false
  end.

(** [a < b] *)
Definition lt (a b : number) : bool :=
  match compare a b with
  | Some Lt => true
  | _ => false
  end.

(** [a === b] on numbers *)
Definition strict_eq (a b : number) : bool :=
  match compare a b with
  | Some Eq => true
  | _ => false
  end.

(** Canonical form of [m * 2^e], [0 <= m]. *)
Definition normalize (m e : Z) : Z * Z :=
  if m =? 0 then (0, 0)
  else let t := Z.log2 (Z.land m (- m)) in (m / 2 ^ t, e + t).

(** Nearest integer to [num / den], ties to even. *)
Definition round_half_even (num den : Z) : Z :=
  let q := num / den in
  let r := num mod den in
  match 2 * r ?= den with
  | Lt => q
  | Gt => q + 1
  | Eq => if Z.even q then q else q + 1
  end.

(** The Number value of the real [(-1)^neg * p / q] ([0 <= p], [0 < q]):
    round to nearest binary64, ties to even, with gradual underflow and
    overflow to infinity. *)
Definition binary64 (neg : bool) (p q : Z) : number :=
  if p =? 0 then zero
  else
    let e1 := Z.log2 p - Z.log2 q - 52 in
    let above :=
      if 0 <=? 52 + e1 then q * 2 ^ (52 + e1) <=? p
      else q <=? p * 2 ^ (- (52 + e1)) in
    let e := Z.max (if above then e1 else e1 - 1) (-1074) in
    let m :=
      if 0 <=? e then round_half_even p (q * 2 ^ e)
      else round_half_even (p * 2 ^ (- e)) q in
    if (971 <? e) || ((e =? 971) && (m =? 2 ^ 53)) then Infinity neg
    else
      let '(m', e') := normalize m e in
      Finite (if neg then - m' else m') e'.

(** *** StringToNumber, the coercion behind unary [+] *)

Definition digit_val (base : Z) (c : ascii) : option Z :=
  let n := Z.of_N (N_of_ascii c) in
  let d :=
    if (48 <=? n) && (n <=? 57) then Some (n - 48)
    else if (97 <=? n) && (n <=? 102) then Some (n - 87)
    else if (65 <=? n) && (n <=? 70) then Some (n - 55)
    else None in
  match d with
  | Some v => if v <? base then Some v else None
  | None => None
  end.

(** Reads the longest run of digits in front of [s]: the value
    accumulated on top of [acc], the number of digits read, the rest. *)
Fixpoint read_digits (base acc n : Z) (s : list ascii)
  : Z * Z * list ascii :=
  match s with
  | c :: r =>
      match digit_val base c with
      | Some d => read_digits base (acc * base + d) (n + 1) r
      | None => (acc, n, s)
      end
  | [] => (acc, n, [])
  end.

Definition is_nil (s : list ascii) : bool :=
  match s with [] => true | _ => false end.

Definition ascii_in (c : ascii) (s : string) : bool :=
  existsb (Ascii.eqb c) (list_ascii_of_string s).

(** ExponentPart, optional, up to the end of the literal. *)
Definition parse_exponent (s : list ascii) : option Z :=
  match s with
  | [] => Some 0
  | c :: r =>
      if ascii_in c "eE" then
        let '(neg, r') :=
          match r with
          | "+"%char :: t => (false, t)
          | "-"%char :: t => (true, t)
          | _ => (false, r)
          end in
        let '(v, n, rest) := read_digits 10 0 0 r' in
        if (0 <? n) && is_nil rest then Some (if neg then - v else v)
        else None
      else None
  end.

(** StrUnsignedDecimalLiteral *)
Definition parse_unsigned_decimal (neg : bool) (s : list ascii) : number :=
  if String.eqb (string_of_list_ascii s) "Infinity" then Infinity neg
  else
    let '(i, ni, r1) := read_digits 10 0 0 s in
    let '(f, nf, r2) :=
      match r1 with
      | "."%char :: t => read_digits 10 i 0 t
      | _ => (i, 0, r1)
      end in
    if (ni =? 0) && (nf =? 0) then NaN
    else
      match parse_exponent r2 with
      | None => NaN
      | Some x =>
          let d := x - nf in
          if 0 <=? d then binary64 neg (f * 10 ^ d) 1
          else binary64 neg f (10 ^ (- d))
      end.

Definition radix_of (c : ascii) : option Z :=
  if ascii_in c "xX" then Some 16
  else if ascii_in c "oO" then Some 8
  else if ascii_in c "bB" then Some 2
  else None.

(** NonDecimalIntegerLiteral after its two-character prefix. *)
Definition parse_radix (base : Z) (s : list ascii) : number :=
  let '(v, n, rest) := read_digits base 0 0 s in
  if (0 <? n) && is_nil rest then binary64 false v 1 else NaN.

(** [+str]: StringToNumber. *)
Definition StringToNumber (str : string) : number :=
  let s := list_ascii_of_string (trim str) in
  match s with
  | [] => zero
  | "+"%char :: r => parse_unsigned_decimal false r
  | "-"%char :: r => parse_unsigned_decimal true r
  | "0"%char :: c :: r =>
      match radix_of c with
      | Some b => parse_radix b r
      | None => parse_unsigned_decimal false s
      end
  | _ => parse_unsigned_decimal false s
  end.

(** *** Number::toString, radix 10 *)

(** Decimal digits of a non-negative integer, at least one. *)
Definition digits_of (z : Z) : string :=
  NilZero.string_of_uint (N.to_uint (Z.to_N z)).

Fixpoint zeros (n : nat) : string :=
  match n with
  | O => EmptyString
  | S n' => String "0" (zeros n')
  end.

(** Scaled value [p / q * 10^d] as a fraction. *)
Definition scale10 (p q d : Z) : Z * Z :=
  if 0 <=? d then (p * 10 ^ d, q) else (p, q * 10 ^ (- d)).

(** The [k]-digit candidate for [x = p / q] at decimal exponent [n]:
    the neighbour [s] of [x / 10^(n-k)] whose value [s * 10^(n-k)] is
    the Number [x], the closer one (the even one on a tie) when both
    are. *)
Definition candidate (x : number) (p q n k : Z) : option Z :=
  let '(u, den) := scale10 p q (k - n) in
  let lo := u / den in
  let hi := lo + 1 in
  let back s :=
    let '(a, b) := scale10 s 1 (n - k) in
    strict_eq (binary64 false a b) x in
  let lo_first :=
    match 2 * (u mod den) ?= den with
    | Lt => true
    | Gt => false
    | Eq => Z.even lo
    end in
  let '(fst_, snd_) := if lo_first then (lo, hi) else (hi, lo) in
  if back fst_ then Some fst_
  else if back snd_ then Some snd_
  else None.

(** Shortest digit string: the least [k] from [k] upwards with a
    candidate, and the candidate. *)
Fixpoint shortest (fuel : nat) (x : number) (p q n k : Z) : Z * Z :=
  match fuel with
  | O => (k, round_half_even (fst (scale10 p q (k - n)))
                             (snd (scale10 p q (k - n))))
  | S fuel' =>
      match candidate x p q n k with
      | Some s => (k, s)
      | None => shortest fuel' x p q n (k + 1)
      end
  end.

(** Lays out the digits [s] ([k] of them) with the decimal point after
    the [n]-th digit. *)
Definition layout (s : string) (k n : Z) : string :=
  if (k <=? n) && (n <=? 21) then
    s ++ zeros (Z.to_nat (n - k))
  else if (0 <? n) && (n <=? 21) then
    substring 0 (Z.to_nat n) s ++ "."
      ++ substring (Z.to_nat n) (Z.to_nat (k - n)) s
  else if (-6 <? n) && (n <=? 0) then
    "0." ++ zeros (Z.to_nat (- n)) ++ s
  else
    let ex :=
      "e" ++ (if 0 <=? n - 1 then "+" else "-")
          ++ digits_of (Z.abs (n - 1)) in
    if k =? 1 then s ++ ex
    else substring 0 1 s ++ "."
           ++ substring 1 (Z.to_nat (k - 1)) s ++ ex.

(** [x.toString()] for a positive finite [x = a * 2^e]. *)
Definition positive_toString (a e : Z) : string :=
  let '(p, q) := if 0 <=? e then (a * 2 ^ e, 1) else (a, 2 ^ (- e)) in
  let sc := if e <? 0 then - e else 0 in
  let n := JS.length (digits_of ((p * 10 ^ sc) / q)) - sc in
  let '(k, s) := shortest 17 (Finite a e) p q n 1 in
  if s =? 10 ^ k then layout "1" 1 (n + 1)
  else layout (digits_of s) k n.

(** [x.toString()] *)
Definition toString (x : number) : string :=
  match x with
  | NaN => "NaN"
  | Infinity false => "Infinity"
  | Infinity true => "-Infinity"
  | Finite m e =>
      if m =? 0 then "0"
      else if m <? 0 then "-" ++ positive_toString (- m) e
      else positive_toString m e
  end.

(** A string that starts with a code unit that is not white space. *)
Definition starts_visible (s : string) : Prop :=
  match s with
  | String c _ => isWhiteSpace c = false
  | EmptyString => False
  end.

End JS.

(** ** The program *)

Module App.

Local Open Scope string_scope.
Local Open Scope list_scope.
Local Open Scope Z_scope.

Inductive ProjectStatus : Type :=
| Active
| Finished.

Definition status_eqb (a b : ProjectStatus) : bool :=
  match a, b with
  | Active, Active | Finished, Finished => true
  | _, _ => false
  end.

Record Project : Type := mkProject {
  id : string;
  title : string;
  description : string;
  people : JS.number;
  status : ProjectStatus
}.

Definition set_status (s : ProjectStatus) (p : Project) : Project :=
  mkProject (id p) (title p) (description p) (people p) s.

(** Objects and arrays live in a heap: a [Project] value in the program
    is the address of a Project object, a [Project[]] value the address
    of an array of such addresses. *)
Abbreviation ref := nat (only parsing).
Abbreviation aref := nat (only parsing).

(** The only functions ever passed to [addListener] are the arrow
    functions of [ProjectList.configure]; each is closed over its lane
    ([this]), given here by the lane's index among the lanes built. *)
Inductive Listener : Type :=
| LaneListener (lane : nat).

Inductive ListType : Type :=
| active
| finished.

Record ProjectList : Type := mkProjectList {
  type : ListType;
  assignedProjects : aref
}.

(** A rendered [ProjectItem]: the project it holds, the id of its
    element and the text of its [h2], [h3] and [p]. *)
Record ProjectItem : Type := mkProjectItem {
  project : ref;
  element_id : string;
  h2 : string;
  h3 : string;
  p : string
}.

Record World : Type := mkWorld {
  objects : list Project;          (* heap of Project objects *)
  arrays : list (list ref);        (* heap of Project[] arrays *)
  projects : aref;                 (* projectState.projects *)
  listeners : list Listener;       (* projectState.listeners *)
  lanes : list ProjectList;        (* the ProjectList instances *)
  titleValue : string;             (* titleElement.value *)
  descriptionValue : string;       (* descriptionElement.value *)
  peopleValue : string;            (* peopleElement.value *)
  active_list : list ProjectItem;    (* children of #active-projects-list *)
  finished_list : list ProjectItem;  (* children of #finished-projects-list *)
  alerts : list string;            (* messages shown by alert(), oldest first *)
  notified : list (Listener * aref)
    (* listener invocations with the array each received, oldest first *)
}.

Definition set_objects (o : list Project) (w : World) : World :=
  mkWorld o (arrays w) (projects w) (listeners w) (lanes w)
    (titleValue w) (descriptionValue w) (peopleValue w)
    (active_list w) (finished_list w) (alerts w) (notified w).

Definition set_arrays (a : list (list ref)) (w : World) : World :=
  mkWorld (objects w) a (projects w) (listeners w) (lanes w)
    (titleValue w) (descriptionValue w) (peopleValue w)
    (active_list w) (finished_list w) (alerts w) (notified w).

Definition set_listeners (l : list Listener) (w : World) : World :=
  mkWorld (objects w) (arrays w) (projects w) l (lanes w)
    (titleValue w) (descriptionValue w) (peopleValue w)
    (active_list w) (finished_list w) (alerts w) (notified w).

Definition set_lanes (l : list ProjectList) (w : World) : World :=
  mkWorld (objects w) (arrays w) (projects w) (listeners w) l
    (titleValue w) (descriptionValue w) (peopleValue w)
    (active_list w) (finished_list w) (alerts w) (notified w).

Definition set_inputs (t d n : string) (w : World) : World :=
  mkWorld (objects w) (arrays w) (projects w) (listeners w) (lanes w)
    t d n (active_list w) (finished_list w) (alerts w) (notified w).

Definition set_list (t : ListType) (l : list ProjectItem) (w : World)
  : World :=
  mkWorld (objects w) (arrays w) (projects w) (listeners w) (lanes w)
    (titleValue w) (descriptionValue w) (peopleValue w)
    (match t with active => l | finished => active_list w end)
    (match t with active => finished_list w | finished => l end)
    (alerts w) (notified w).

Definition set_alerts (a : list string) (w : World) : World :=
  mkWorld (objects w) (arrays w) (projects w) (listeners w) (lanes w)
    (titleValue w) (descriptionValue w) (peopleValue w)
    (active_list w) (finished_list w) a (notified w).

Definition set_notified (n : list (Listener * aref)) (w : World) : World :=
  mkWorld (objects w) (arrays w) (projects w) (listeners w) (lanes w)
    (titleValue w) (descriptionValue w) (peopleValue w)
    (active_list w) (finished_list w) (alerts w) n.

(** *** Arrays *)

(** A new array holding [l]; its address is returned. *)
Definition new_array (l : list ref) (w : World) : aref * World :=
  (length (arrays w), set_arrays (arrays w ++ [l]) w).

(** The elements of the array at [a]. *)
Definition elements (a : aref) (w : World) : list ref :=
  default [] (arrays w !! a).

(** [a.push(r)] *)
Definition push (a : aref) (r : ref) (w : World) : World :=
  set_arrays (alter (λ l, l ++ [r]) a (arrays w)) w.

(** [a.slice()] *)
Definition slice (a : aref) (w : World) : aref * World :=
  new_array (elements a w) w.

(** A predicate on Project objects, applied to the object behind an
    element of an array. *)
Definition on_object (f : Project → bool) (w : World) (r : ref) : bool :=
  match objects w !! r with
  | Some o => f o
  | None => false
  end.

(** [a.filter(f)] *)
Definition filter_array (f : Project → bool) (a : aref) (w : World)
  : aref * World :=
  new_array (List.filter (on_object f w) (elements a w)) w.

(** [a.find(f)] *)
Definition find_array (f : Project → bool) (a : aref) (w : World)
  : option ref :=
  List.find (on_object f w) (elements a w).

(** *** validator *)

Record Validatable : Type := mkValidatable {
  value : string + JS.number;
  required : option bool;
  minLength : option JS.number;
  maxLength : option JS.number;
  min : option JS.number;
  max : option JS.number
}.

(** [arg.value.toString()] *)
Definition value_toString (v : string + JS.number) : string :=
  match v with
  | inl s => s
  | inr n => JS.toString n
  end.

Definition validator (arg : Validatable) : bool :=
  let isValid := true in
  let isValid :=
    match required arg with
    | Some true =>
        isValid
        && negb (JS.length (JS.trim (value_toString (value arg))) =? 0)
    | _ => isValid
    end in
  let isValid :=
    match minLength arg, value arg with
    | Some n, inl s => isValid && JS.ge (JS.of_Z (JS.length s)) n
    | _, _ => isValid
    end in
  let isValid :=
    match maxLength arg, value arg with
    | Some n, inl s => isValid && JS.le (JS.of_Z (JS.length s)) n
    | _, _ => isValid
    end in
  let isValid :=
    match min arg, value arg with
    | Some n, inr v => isValid && JS.ge v n
    | _, _ => isValid
    end in
  let isValid :=
    match max arg, value arg with
    | Some n, inr v => isValid && JS.le v n
    | _, _ => isValid
    end in
  isValid.

(** *** ProjectItem *)

(** The [persons] getter. *)
Definition persons (o : Project) : string :=
  if JS.strict_eq (people o) (JS.of_Z 1) then "1 person assigned"
  else (JS.toString (people o) ++ " persons assigned")%string.

(** [new ProjectItem(hostId, project)] as rendered. *)
Definition new_ProjectItem (w : World) (r : ref) : option ProjectItem :=
  match objects w !! r with
  | Some o => Some (mkProjectItem r (id o) (title o) (persons o)
                      (description o))
  | None => None
  end.

(** *** ProjectList *)

(** [renderProjects]: empties the lane's list element and appends one
    item per assigned project. *)
Definition renderProjects (lane : ProjectList) (w : World) : World :=
  set_list (type lane)
    (omap (new_ProjectItem w) (elements (assignedProjects lane) w)) w.

(** The predicate given to [projects.filter] in [configure]. *)
Definition relevant (t : ListType) (proj : Project) : bool :=
  match t with
  | active => status_eqb (status proj) Active
  | finished => status_eqb (status proj) Finished
  end.

(** The arrow function registered by [configure], applied to
    [projects]. *)
Definition call_listener (l : Listener) (projects : aref) (w : World)
  : World :=
  match l with
  | LaneListener i =>
      match lanes w !! i with
      | Some lane =>
          let '(relevantProjects, w) :=
            filter_array (relevant (type lane)) projects w in
          let lane' := mkProjectList (type lane) relevantProjects in
          renderProjects lane' (set_lanes (<[i := lane']> (lanes w)) w)
      | None => w
      end
  end.

(** *** ProjectState *)

(** [addListener] *)
Definition addListener (l : Listener) (w : World) : World :=
  set_listeners (listeners w ++ [l]) w.

(** One turn of the loop of [updateListeners]. *)
Definition notify (w : World) (listenerFn : Listener) : World :=
  let '(copy, w) := slice (projects w) w in
  call_listener listenerFn copy
    (set_notified (notified w ++ [(listenerFn, copy)]) w).

Definition updateListeners (w : World) : World :=
  foldl notify w (listeners w).

(** [addProjects]; [random] is the value [Math.random()] returns. *)
Definition addProjects (random : JS.number)
    (title description : string) (people : JS.number) (w : World)
  : World :=
  let newProject := length (objects w) in
  let w :=
    set_objects
      (objects w
         ++ [mkProject (JS.toString random) title description people
               Active]) w in
  let w := push (projects w) newProject w in
  updateListeners w.

Definition moveProject (projectId : string) (newStatus : ProjectStatus)
    (w : World) : World :=
  match find_array (λ el, String.eqb (id el) projectId) (projects w) w with
  | Some project =>
      match objects w !! project with
      | Some o =>
          if negb (status_eqb (status o) newStatus) then
            updateListeners
              (set_objects
                 (<[project := set_status newStatus o]> (objects w)) w)
          else w
      | None => w
      end
  | None => w
  end.

(** [dropHandler] of lane [i], [data] being
    [event.dataTransfer.getData("text/plain")]. *)
Definition dropHandler (i : nat) (data : string) (w : World) : World :=
  match lanes w !! i with
  | Some lane =>
      moveProject data
        (match type lane with active => Active | finished => Finished end)
        w
  | None => w
  end.

(** *** ProjectInput *)

Definition alert (msg : string) (w : World) : World :=
  set_alerts (alerts w ++ [msg]) w.

Definition gatherUserInput (w : World)
  : option (string * string * JS.number) * World :=
  let title := titleValue w in
  let description := descriptionValue w in
  let people := peopleValue w in
  if negb (validator (mkValidatable (inl title) (Some true)
                        None None None None))
     || negb (validator (mkValidatable (inl description) (Some true)
                           (Some (JS.of_Z 5)) None None None))
     || negb (validator (mkValidatable (inr (JS.StringToNumber people))
                           (Some true) None None
                           (Some (JS.of_Z 0)) (Some (JS.of_Z 5))))
  then (None, alert "Invalid input!" w)
  else (Some (title, description, JS.StringToNumber people), w).

Definition clearInputs (w : World) : World :=
  set_inputs "" "" "" w.

(** [handleSubmit]; [random] is what [Math.random()] returns if the
    handler gets to call it. *)
Definition handleSubmit (random : JS.number) (w : World) : World :=
  let '(userInput, w) := gatherUserInput w in
  match userInput with
  | Some (title, description, people) =>
      clearInputs (addProjects random title description people w)
  | None => w
  end.

(** *** The page *)

(** Before the three components at the bottom of the file are built:
    [projectState] exists, with its empty [projects] array. *)
Definition start : World :=
  mkWorld [] [[]] 0%nat [] [] "" "" "" [] [] [] [].

(** [new ProjectList(type)]: the [assignedProjects] array, then
    [configure]. *)
Definition new_ProjectList (t : ListType) (w : World) : World :=
  let '(a, w) := new_array [] w in
  let i := length (lanes w) in
  addListener (LaneListener i) (set_lanes (lanes w ++ [mkProjectList t a]) w).

(** The page once the script has run. *)
Definition init : World :=
  new_ProjectList finished (new_ProjectList active start).

(** What can happen next: the user edits a field, submits the form, or
    drops something on a lane. *)
Inductive Event : Type :=
| EditTitle (s : string)
| EditDescription (s : string)
| EditPeople (s : string)
| Submit (random : JS.number)
| Drop (lane : nat) (data : string).

Definition handle (ev : Event) (w : World) : World :=
  match ev with
  | EditTitle s => set_inputs s (descriptionValue w) (peopleValue w) w
  | EditDescription s => set_inputs (titleValue w) s (peopleValue w) w
  | EditPeople s => set_inputs (titleValue w) (descriptionValue w) s w
  | Submit random => handleSubmit random w
  | Drop i data => dropHandler i data w
  end.

Definition run (evs : list Event) (w : World) : World :=
  foldl (λ w ev, handle ev w) w evs.

(** [Math.random()] returns a number in [0, 1). *)
Definition is_random (x : JS.number) : bool :=
  JS.ge x JS.zero && JS.lt x (JS.of_Z 1).

Definition possible (ev : Event) : Prop :=
  match ev with
  | Submit random => is_random random = true
  | Drop i _ => (i < 2)%nat
  | _ => True
  end.

Inductive reachable : World → Prop :=
| reachable_init : reachable init
| reachable_step w ev :
    reachable w → possible ev → reachable (handle ev w).

(** *** Vocabulary of the statements *)

(** What a notification leaves alone: the Project objects, the store's
    fields, the form and the alerts; arrays are only ever added. *)
Definition frame (w w' : World) : Prop :=
  objects w' = objects w
  ∧ projects w' = projects w
  ∧ listeners w' = listeners w
  ∧ titleValue w' = titleValue w
  ∧ descriptionValue w' = descriptionValue w
  ∧ peopleValue w' = peopleValue w
  ∧ alerts w' = alerts w
  ∧ ∃ extra, arrays w' = arrays w ++ extra.

(** The listener invocations made on the way from [w] to [w']. *)
Definition deliveries (w w' : World) : list (Listener * aref) :=
  drop (length (notified w)) (notified w').

(** The store's sequence of projects. *)
Definition sequence (w : World) : list ref :=
  elements (projects w) w.

(** The store's array exists. *)
Definition store_allocated (w : World) : Prop :=
  (projects w < length (arrays w))%nat.

(** The store lists every Project object, oldest first. *)
Definition in_creation_order (w : World) : Prop :=
  arrays w !! projects w = Some (seq 0 (length (objects w))).

(** [a] is an array made on the way from [w] to [w'], not the store's
    own, that holds the store's whole sequence. *)
Definition fresh_copy (w w' : World) (a : aref) : Prop :=
  (length (arrays w) ≤ a)%nat
  ∧ a ≠ projects w'
  ∧ arrays w' !! a = Some (sequence w').

(** On the way from [w] to [w'] every listener was called exactly once,
    in registration order, each with a fresh copy of the sequence. *)
Definition notifies_all (w w' : World) : Prop :=
  ∃ copies,
    length copies = length (listeners w')
    ∧ deliveries w w' = zip (listeners w') copies
    ∧ Forall (fresh_copy w w') copies.

(** The object behind [r] has id [pid]. *)
Definition has_id (pid : string) (w : World) (r : ref) : Prop :=
  ∃ o, objects w !! r = Some o ∧ id o = pid.

(** [r] is the first element of the store's sequence with id [pid]. *)
Definition first_with_id (pid : string) (w : World) (r : ref) : Prop :=
  ∃ i,
    sequence w !! i = Some r
    ∧ has_id pid w r
    ∧ ∀ j r', (j < i)%nat → sequence w !! j = Some r' → ¬ has_id pid w r'.

(** [moveProject pid st] has something to do: the first project with
    id [pid] exists and is not in status [st]. *)
Definition movable (pid : string) (st : ProjectStatus) (w : World)
  : Prop :=
  ∃ r o, first_with_id pid w r ∧ objects w !! r = Some o ∧ status o ≠ st.

(** The predicate [moveProject] hands to [find], read on addresses. *)
Definition id_is (pid : string) (w : World) : ref → bool :=
  on_object (λ el, String.eqb (id el) pid) w.

(** The predicate the lane of type [t] hands to [filter], read on
    addresses. *)
Definition keeps (t : ListType) (w : World) : ref → bool :=
  on_object (relevant t) w.

(** [x] is a positive integer. *)
Definition positive_integer (x : JS.number) : Prop :=
  ∃ z : Z, 0 < z ∧ JS.strict_eq x (JS.of_Z z) = true.

(** What the lane of type [t] keeps of the array at [a]: the elements
    of the array its listener's [filter] call returns. *)
Definition kept (t : ListType) (a : aref) (w : World) : list ref :=
  let '(relevantProjects, w') := filter_array (relevant t) a w in
  elements relevantProjects w'.

(** Every element of the array at [a] is the address of an object. *)
Definition all_allocated (a : aref) (w : World) : Prop :=
  Forall (λ r, (r < length (objects w))%nat) (elements a w).

(** A string with nothing but white space in it. *)
Definition blank (s : string) : bool :=
  forallb JS.isWhiteSpace (list_ascii_of_string s).

(** The contract of [validator] in the words of the specification:
    every configured constraint that applies to the type of the value
    is satisfied.  [required] asks that the value, as a string, is not
    blank; the length bounds apply to strings, the numeric bounds to
    numbers. *)
Definition constraints_satisfied (arg : Validatable) : Prop :=
  (required arg = Some true → blank (value_toString (value arg)) = false)
  ∧ (∀ n s, minLength arg = Some n → value arg = inl s →
            JS.ge (JS.of_Z (JS.length s)) n = true)
  ∧ (∀ n s, maxLength arg = Some n → value arg = inl s →
            JS.le (JS.of_Z (JS.length s)) n = true)
  ∧ (∀ n v, min arg = Some n → value arg = inr v → JS.ge v n = true)
  ∧ (∀ n v, max arg = Some n → value arg = inr v → JS.le v n = true).

(** The three field validations of the form, spelled out: a title that
    is not blank, a description that is not blank and has at least
    five code units, a people field whose number is at least 0 and at
    most 5. *)
Definition form_valid (w : World) : bool :=
  negb (blank (titleValue w))
  && (negb (blank (descriptionValue w))
      && (5 <=? JS.length (descriptionValue w)))
  && (JS.ge (JS.StringToNumber (peopleValue w)) (JS.of_Z 0)
      && JS.le (JS.StringToNumber (peopleValue w)) (JS.of_Z 5)).

(** Every element of every array is the address of an object. *)
Definition heap_ok (w : World) : Prop :=
  Forall (Forall (λ r, (r < length (objects w))%nat)) (arrays w).

(** *** Sample worlds *)

(** The number 0.5. *)
Definition half : JS.number := JS.Finite 1 (-1).

Definition fill (t d n : string) : list Event :=
  [EditTitle t; EditDescription d; EditPeople n].

(** One project on the board, created with [Math.random()] giving 0.5. *)
Definition one_project : World :=
  run (fill "Build API" "Design and build the REST API" "3"
         ++ [Submit half]) init.

(** A second submission for which [Math.random()] gives 0.5 again. *)
Definition same_draw_twice : World :=
  run (fill "Write docs" "Describe the REST API" "2" ++ [Submit half])
    one_project.

(** A submission with [0] in the people field. *)
Definition nobody_assigned : World :=
  run (fill "Idle" "Nothing to do here" "0" ++ [Submit half]) init.

(** The form filled in with the people field left empty. *)
Definition people_left_empty : World :=
  run (fill "Idle" "Nothing to do here" "") init.

End App.

(** ** The board on the page and the drag events *)

Module Board.

Import App.
Local Open Scope string_scope.
Local Open Scope list_scope.

(** The children of the list element of the lane of type [t]. *)
Definition list_of (t : ListType) (w : World) : list ProjectItem :=
  match t with
  | active => active_list w
  | finished => finished_list w
  end.

(** The items [renderProjects] builds for the lane of type [t] out of
    the store as it is now. *)
Definition cards (t : ListType) (w : World) : list ProjectItem :=
  omap (new_ProjectItem w) (List.filter (keeps t w) (sequence w)).

(** The status a drop on a lane of type [t] asks for. *)
Definition status_of (t : ListType) : ProjectStatus :=
  match t with
  | active => Active
  | finished => Finished
  end.

(** The index of the lane of type [t]: [activeProjectList] is built
    first, [finishedProjectList] second. *)
Definition lane_index (t : ListType) : nat :=
  match t with
  | active => 0
  | finished => 1
  end.

(** The two lanes of the page are there, subscribed in the order they
    were built. *)
Definition two_lanes (w : World) : Prop :=
  listeners w = [LaneListener 0; LaneListener 1]
  ∧ type <$> lanes w = [active; finished].

(** Each list element shows what [renderProjects] would build now. *)
Definition shows_store (w : World) : Prop :=
  ∀ t, list_of t w = cards t w.

(** Each lane's [assignedProjects] is the store's sequence, filtered. *)
Definition lanes_current (w : World) : Prop :=
  ∀ i lane, lanes w !! i = Some lane →
    elements (assignedProjects lane) w
    = List.filter (keeps (type lane) w) (sequence w).

(** The page agrees with the store. *)
Definition board_ok (w : World) : Prop :=
  two_lanes w ∧ shows_store w ∧ lanes_current w.

(** *** Drag events *)

(** The text items of a drag data store, oldest first, and the
    [effectAllowed] attribute. *)
Record DataTransfer : Type := mkDataTransfer {
  items : list (string * string);
  effectAllowed : string
}.

(** [dt.setData(format, data)], for a [format] already in lower case
    that is neither ["text"] nor ["url"]: the item of that format, if
    any, is removed and the new one added at the end. *)
Definition setData (format data : string) (dt : DataTransfer)
  : DataTransfer :=
  mkDataTransfer
    (List.filter (λ it, negb (String.eqb (fst it) format)) (items dt)
       ++ [(format, data)])
    (effectAllowed dt).

(** [dt.getData(format)]: the empty string when there is no such item. *)
Definition getData (format : string) (dt : DataTransfer) : string :=
  match List.find (λ it, String.eqb (fst it) format) (items dt) with
  | Some it => snd it
  | None => ""
  end.

(** [dt.types] *)
Definition types (dt : DataTransfer) : list string :=
  fst <$> items dt.

Record DragEvent : Type := mkDragEvent {
  dataTransfer : option DataTransfer;   (* null when absent *)
  defaultPrevented : bool
}.

(** [classList.add(c)] *)
Definition classList_add (c : string) (l : list string) : list string :=
  if existsb (String.eqb c) l then l else l ++ [c].

(** [classList.remove(c)] *)
Definition classList_remove (c : string) (l : list string) : list string :=
  List.filter (λ x, negb (String.eqb c x)) l.

(** The page: the world of the store, the form and the two lists,
    and the class list of the [ul] of each lane. *)
Record Page : Type := mkPage {
  world : World;
  classList : list (list string)
}.

(** [dragStartHandler] of a rendered item; [None] when the handler
    throws ([dataTransfer] is null). *)
Definition dragStartHandler (w : World) (item : ProjectItem)
    (event : DragEvent) : option DragEvent :=
  match dataTransfer event, objects w !! project item with
  | Some dt, Some o =>
      Some (mkDragEvent
              (Some (mkDataTransfer
                       (items (setData "text/plain" (id o) dt)) "move"))
              (defaultPrevented event))
  | _, _ => None
  end.

(** [dragOverHandler] of lane [i]. *)
Definition dragOverHandler (i : nat) (event : DragEvent) (pg : Page)
  : DragEvent * Page :=
  match dataTransfer event with
  | Some dt =>
      match types dt !! 0%nat with
      | Some ty =>
          if String.eqb ty "text/plain" then
            (mkDragEvent (dataTransfer event) true,
             mkPage (world pg)
               (alter (classList_add "droppable") i (classList pg)))
          else (event, pg)
      | None => (event, pg)
      end
  | None => (event, pg)
  end.

(** [dragLeaveHandler] of lane [i]. *)
Definition dragLeaveHandler (i : nat) (pg : Page) : Page :=
  mkPage (world pg)
    (alter (classList_remove "droppable") i (classList pg)).

(** [dropHandler] of lane [i], from the event; [None] when the handler
    throws ([dataTransfer] is null). *)
Definition dropHandler (i : nat) (event : DragEvent) (pg : Page)
  : option Page :=
  match dataTransfer event with
  | Some dt =>
      Some (mkPage (App.dropHandler i (getData "text/plain" dt) (world pg))
              (classList pg))
  | None => None
  end.

End Board.

Example toNumber_samples :
  JS.StringToNumber "3" = JS.Finite 3 0 /\
  JS.StringToNumber " 2.5 " = JS.Finite 5 (-1) /\
  JS.StringToNumber "" = JS.Finite 0 0 /\
  JS.StringToNumber "abc" = JS.NaN /\
  JS.StringToNumber "1e3" = JS.Finite 125 3 /\
  JS.StringToNumber "0x1F" = JS.Finite 31 0 /\
  JS.StringToNumber "-Infinity" = JS.Infinity true /\
  JS.StringToNumber "5." = JS.Finite 5 0 /\
  JS.StringToNumber ".5" = JS.Finite 1 (-1) /\
  JS.StringToNumber "." = JS.NaN /\
  JS.StringToNumber "1e400" = JS.Infinity false /\
  JS.StringToNumber "1e-400" = JS.Finite 0 0 /\
  JS.StringToNumber "9007199254740993" = JS.Finite 1 53 /\
  JS.StringToNumber "5.0000000000000000001" = JS.Finite 5 0.
Proof. vm_compute. repeat split. Qed.

Example toString_samples :
  JS.toString (JS.StringToNumber "3") = "3"%string /\
  JS.toString (JS.StringToNumber "2.50") = "2.5"%string /\
  JS.toString (JS.StringToNumber "0.1") = "0.1"%string /\
  JS.toString (JS.StringToNumber "-0.1") = "-0.1"%string /\
  JS.toString (JS.StringToNumber "0.30000000000000004") = "0.30000000000000004"%string /\
  JS.toString (JS.StringToNumber "1e21") = "1e+21"%string /\
  JS.toString (JS.StringToNumber "1e23") = "1e+23"%string /\
  JS.toString (JS.StringToNumber "123456789012345678901") = "123456789012345680000"%string /\
  JS.toString (JS.StringToNumber "0.000001") = "0.000001"%string /\
  JS.toString (JS.StringToNumber "0.0000001") = "1e-7"%string /\
  JS.toString (JS.StringToNumber "1.5e-10") = "1.5e-10"%string /\
  JS.toString (JS.StringToNumber "5e-324") = "5e-324"%string /\
  JS.toString (JS.StringToNumber "1.7976931348623157e308") = "1.7976931348623157e+308"%string /\
  JS.toString (JS.StringToNumber "9007199254740993") = "9007199254740992"%string /\
  JS.toString (JS.StringToNumber "100") = "100"%string /\
  JS.toString (JS.StringToNumber "0.7264937647") = "0.7264937647"%string /\
  JS.toString JS.NaN = "NaN"%string.
Proof. vm_compute. repeat split. Qed.

(** ** Facts about the runtime *)

Section Trim.

Lemma trimStart_nil (l : list ascii) :
  JS.trimStart l = [] ↔ forallb JS.isWhiteSpace l = true.
Proof.
  induction l as [|c r IH]; simpl; [done|].
  destruct (JS.isWhiteSpace c); simpl; [exact IH|].
  split; intros H; discriminate H.
Qed.

Lemma forallb_rev {A} (f : A → bool) (l : list A) :
  forallb f (rev l) = forallb f l.
Proof.
  induction l as [|a l IH]; simpl; [done|].
  rewrite forallb_app, IH. simpl.
  rewrite andb_true_r. apply andb_comm.
Qed.

Lemma trimStart_keeps_visible (l : list ascii) :
  forallb JS.isWhiteSpace l = false →
  forallb JS.isWhiteSpace (JS.trimStart l) = false.
Proof.
  induction l as [|c r IH]; simpl; [done|].
  destruct (JS.isWhiteSpace c) eqn:E; simpl; [exact IH|].
  intros _. by rewrite E.
Qed.

Lemma trimEnd_nil (l : list ascii) :
  JS.trimEnd l = [] ↔ forallb JS.isWhiteSpace l = true.
Proof.
  unfold JS.trimEnd. rewrite <- (forallb_rev _ l), <- trimStart_nil.
  split; intros H.
  - apply (f_equal (@rev ascii)) in H. by rewrite rev_involutive in H.
  - by rewrite H.
Qed.

(** The trimmed string is empty exactly when every code unit is white
    space. *)
Lemma trim_empty (s : string) :
  (JS.length (JS.trim s) =? 0)%Z
  = forallb JS.isWhiteSpace (list_ascii_of_string s).
Proof.
  unfold JS.length, JS.trim.
  set (l := list_ascii_of_string s).
  destruct (forallb JS.isWhiteSpace l) eqn:E.
  - apply trimStart_nil in E. rewrite E. reflexivity.
  - apply trimStart_keeps_visible in E.
    destruct (JS.trimEnd (JS.trimStart l)) as [|c r] eqn:T.
    + apply trimEnd_nil in T. congruence.
    + reflexivity.
Qed.

End Trim.

Section ToString.

Local Open Scope string_scope.

Lemma starts_visible_app (s t : string) :
  JS.starts_visible s → JS.starts_visible (s ++ t).
Proof. destruct s; simpl; [contradiction|done]. Qed.

Lemma starts_visible_prefix (s : string) (n : nat) :
  JS.starts_visible s → JS.starts_visible (substring 0 (S n) s).
Proof. destruct s; simpl; [contradiction|done]. Qed.

Lemma starts_visible_not_blank (s : string) :
  JS.starts_visible s →
  forallb JS.isWhiteSpace (list_ascii_of_string s) = false.
Proof. destruct s; simpl; [contradiction|]. by intros ->. Qed.

Lemma digits_of_visible (z : Z) : JS.starts_visible (JS.digits_of z).
Proof.
  unfold JS.digits_of, NilZero.string_of_uint.
  destruct (N.to_uint (Z.to_N z)); reflexivity.
Qed.

Lemma layout_visible (s : string) (k n : Z) :
  JS.starts_visible s → JS.starts_visible (JS.layout s k n).
Proof.
  intros Hs. unfold JS.layout.
  destruct ((k <=? n) && (n <=? 21))%Z; [by apply starts_visible_app|].
  destruct ((0 <? n) && (n <=? 21))%Z eqn:E.
  - apply andb_true_iff in E as [E _]. apply Z.ltb_lt in E.
    destruct (Z.to_nat n) as [|m] eqn:En; [lia|].
    by apply starts_visible_app, starts_visible_prefix.
  - destruct ((-6 <? n) && (n <=? 0))%Z; [reflexivity|].
    destruct (k =? 1)%Z; [by apply starts_visible_app|].
    by apply starts_visible_app, (starts_visible_prefix s 0).
Qed.

Lemma positive_toString_visible (a e : Z) :
  JS.starts_visible (JS.positive_toString a e).
Proof.
  unfold JS.positive_toString.
  destruct (0 <=? e)%Z;
    (destruct (JS.shortest _ _ _ _ _ _) as [k s];
     destruct (s =? 10 ^ k)%Z;
     apply layout_visible; [reflexivity | apply digits_of_visible]).
Qed.

(** The string form of a number always starts with a visible code
    unit: a digit, a minus sign, or the first letter of [NaN] or
    [Infinity]. *)
Lemma toString_visible (x : JS.number) : JS.starts_visible (JS.toString x).
Proof.
  destruct x as [|[]|m e]; try reflexivity.
  unfold JS.toString.
  destruct (m =? 0)%Z; [reflexivity|].
  destruct (m <? 0)%Z; [reflexivity|].
  apply positive_toString_visible.
Qed.

Lemma toString_not_blank (x : JS.number) :
  (JS.length (JS.trim (JS.toString x)) =? 0)%Z = false.
Proof.
  rewrite trim_empty. apply starts_visible_not_blank, toString_visible.
Qed.

End ToString.

(** ** The store *)

Section Store.

Import App.

Lemma frame_refl (w : World) : frame w w.
Proof. repeat split. exists []. by rewrite app_nil_r. Qed.

Lemma frame_trans (w1 w2 w3 : World) :
  frame w1 w2 → frame w2 w3 → frame w1 w3.
Proof.
  intros (?&?&?&?&?&?&?&e1&?) (?&?&?&?&?&?&?&e2&?).
  repeat split; try congruence.
  exists (e1 ++ e2). rewrite app_assoc. congruence.
Qed.

Lemma call_listener_frame (l : Listener) (a : aref) (w : World) :
  frame w (call_listener l a w)
  ∧ notified (call_listener l a w) = notified w.
Proof.
  destruct l as [i]. unfold call_listener.
  destruct (lanes w !! i) as [lane|]; [|split; [apply frame_refl|done]].
  split; [|by destruct lane as [[] ?]].
  repeat split; try by destruct lane as [[] ?].
  eexists. by destruct lane as [[] ?].
Qed.

Lemma notify_spec (l : Listener) (w : World) :
  frame w (notify w l)
  ∧ notified (notify w l) = notified w ++ [(l, length (arrays w))]
  ∧ ∃ extra, arrays (notify w l) = arrays w ++ sequence w :: extra.
Proof.
  unfold notify, slice, new_array.
  set (w1 := set_notified _ _).
  destruct (call_listener_frame l (length (arrays w)) w1)
    as [(Ho&Hp&Hl&Ht&Hd&Hn&Ha&extra&He) Hn'].
  split; [|split].
  - repeat split; try done.
    exists ([sequence w] ++ extra). rewrite He. simpl.
    by rewrite <- app_assoc.
  - by rewrite Hn'.
  - exists extra. rewrite He. simpl. by rewrite <- app_assoc.
Qed.

Lemma sequence_frame (w w' : World) :
  (projects w < length (arrays w))%nat → frame w w' →
  sequence w' = sequence w ∧ (projects w' < length (arrays w'))%nat.
Proof.
  intros Hlt (_&Hp&_&_&_&_&_&extra&He).
  unfold sequence, elements. rewrite Hp, He. split.
  - by rewrite lookup_app_l.
  - rewrite length_app. lia.
Qed.

(** What a run of the notification loop over [ls] does. *)
Lemma foldl_notify (ls : list Listener) (w : World) :
  (projects w < length (arrays w))%nat →
  frame w (foldl notify w ls)
  ∧ ∃ copies,
      length copies = length ls
      ∧ notified (foldl notify w ls) = notified w ++ zip ls copies
      ∧ Forall (λ a, (length (arrays w) ≤ a)%nat
                     ∧ arrays (foldl notify w ls) !! a = Some (sequence w))
          copies.
Proof.
  revert w. induction ls as [|l ls IH]; intros w Hlt; simpl.
  - split; [apply frame_refl|]. exists []. by rewrite app_nil_r.
  - destruct (notify_spec l w) as (Hf & Hn & extra & He).
    destruct (sequence_frame _ _ Hlt Hf) as [Hs Hlt'].
    destruct (IH _ Hlt') as (Hf' & copies & Hlen & Hn' & Hall).
    split; [by eapply frame_trans|].
    exists (length (arrays w) :: copies). split; [simpl; lia|]. split.
    + rewrite Hn', Hn. simpl. by rewrite <- app_assoc.
    + destruct Hf' as (_&_&_&_&_&_&_&extra'&He').
      constructor.
      * split; [lia|]. rewrite He', He.
        rewrite lookup_app_l by (rewrite length_app; simpl; lia).
        by rewrite list_lookup_middle.
      * eapply Forall_impl; [exact Hall|]. simpl. intros a [Hle Ha].
        split; [|by rewrite Ha, Hs].
        rewrite He, length_app in Hle. lia.
Qed.

Lemma updateListeners_frame (w : World) : frame w (updateListeners w).
Proof.
  unfold updateListeners. generalize (listeners w) as ls.
  intros ls. revert w. induction ls as [|l ls IH]; intros w; simpl.
  - apply frame_refl.
  - eapply frame_trans; [apply notify_spec|apply IH].
Qed.

Lemma addProjects_frame (random : JS.number) (t d : string)
    (n : JS.number) (w : World) :
  let w' := addProjects random t d n w in
  objects w' = objects w ++ [mkProject (JS.toString random) t d n Active]
  ∧ projects w' = projects w
  ∧ listeners w' = listeners w
  ∧ titleValue w' = titleValue w
  ∧ descriptionValue w' = descriptionValue w
  ∧ peopleValue w' = peopleValue w
  ∧ alerts w' = alerts w.
Proof.
  intros w'. subst w'. unfold addProjects.
  set (wm := push _ _ _).
  by destruct (updateListeners_frame wm) as (-> & -> & -> & -> & -> & -> & -> & _).
Qed.

(** A notification started in [w], seen from an earlier world [w0]
    with the same arrays allocated and the same history. *)
Lemma updateListeners_notifies (w0 w : World) :
  store_allocated w →
  notified w0 = notified w →
  length (arrays w0) = length (arrays w) →
  notifies_all w0 (updateListeners w).
Proof.
  intros Hlt Hn Ha. unfold updateListeners.
  destruct (foldl_notify (listeners w) w Hlt) as (Hf & copies & Hlen & Hn' & Hall).
  destruct (sequence_frame _ _ Hlt Hf) as [Hs _].
  pose proof Hf as (_&Hp&Hl&_).
  exists copies. split; [by rewrite Hl|]. split.
  - unfold deliveries. rewrite Hn, Hn', Hl. apply drop_app_length.
  - eapply Forall_impl; [exact Hall|]. simpl. intros a [Hle Hlook].
    unfold fresh_copy. rewrite Hp, Hs, Ha.
    repeat split; [done| |done]. unfold store_allocated in Hlt. lia.
Qed.

Lemma status_eqb_eq (a b : ProjectStatus) : status_eqb a b = true ↔ a = b.
Proof. destruct a, b; simpl; split; congruence. Qed.

(** [find] returns the first element that satisfies the predicate. *)
Lemma find_first {A} (f : A → bool) (l : list A) (x : A) :
  List.find f l = Some x ↔
  ∃ i, l !! i = Some x ∧ f x = true
       ∧ ∀ j y, (j < i)%nat → l !! j = Some y → f y = false.
Proof.
  induction l as [|a l IH]; simpl.
  - split; [done|]. by intros (i & Hi & _).
  - destruct (f a) eqn:Fa.
    + split.
      * intros [= ->]. exists 0%nat. repeat split; [done|]. intros; lia.
      * intros ([|i] & Hi & Hx & Hmin).
        -- simpl in Hi. congruence.
        -- specialize (Hmin 0%nat a). simpl in Hmin.
           rewrite Hmin in Fa; [done|lia|done].
    + rewrite IH. split.
      * intros (i & Hi & Hx & Hmin). exists (S i). repeat split; [done..|].
        intros [|j] y Hj Hy; simpl in Hy; [congruence|].
        apply (Hmin j); [lia|done].
      * intros ([|i] & Hi & Hx & Hmin); simpl in Hi; [congruence|].
        exists i. repeat split; [done..|].
        intros j y Hj Hy. apply (Hmin (S j)); [lia|done].
Qed.

Lemma find_none {A} (f : A → bool) (l : list A) :
  List.find f l = None ↔ ∀ x, x ∈ l → f x = false.
Proof.
  induction l as [|a l IH]; simpl.
  - split; [|done]. intros _ x Hx. by apply elem_of_nil in Hx.
  - destruct (f a) eqn:Fa.
    + split; [done|]. intros H. rewrite H in Fa; [done|]. by left.
    + rewrite IH. split.
      * intros H x Hx. apply elem_of_cons in Hx as [->|Hx]; auto.
      * intros H x Hx. apply H. by right.
Qed.

Lemma id_is_true (pid : string) (w : World) (r : ref) :
  id_is pid w r = true ↔ has_id pid w r.
Proof.
  unfold id_is, on_object, has_id. destruct (objects w !! r) as [o|].
  - rewrite String.eqb_eq. split; [by exists o|]. by intros (? & [= <-] & ?).
  - split; [done|]. by intros (? & ? & _).
Qed.

Lemma id_is_false (pid : string) (w : World) (r : ref) :
  id_is pid w r = false ↔ ¬ has_id pid w r.
Proof. rewrite <- id_is_true. by destruct (id_is pid w r). Qed.

Lemma find_array_first (pid : string) (w : World) (r : ref) :
  find_array (λ el, String.eqb (id el) pid) (projects w) w = Some r
  ↔ first_with_id pid w r.
Proof.
  unfold find_array, first_with_id. fold (id_is pid w) (sequence w).
  rewrite find_first. apply exist_proper. intros i.
  rewrite id_is_true.
  split; intros (H1 & H2 & H3); repeat split; try done;
    intros j r' Hj Hr'; apply id_is_false; eauto.
Qed.

Lemma find_array_none (pid : string) (w : World) :
  find_array (λ el, String.eqb (id el) pid) (projects w) w = None
  ↔ ∀ r, r ∈ sequence w → ¬ has_id pid w r.
Proof.
  unfold find_array. fold (id_is pid w) (sequence w).
  rewrite find_none. apply forall_proper. intros r.
  by rewrite id_is_false.
Qed.

Lemma first_with_id_unique (pid : string) (w : World) (r r' : ref) :
  first_with_id pid w r → first_with_id pid w r' → r = r'.
Proof. rewrite <- !find_array_first. congruence. Qed.

Lemma first_with_id_ext (pid : string) (w w' : World) (r : ref) :
  sequence w' = sequence w →
  (∀ r, has_id pid w' r ↔ has_id pid w r) →
  first_with_id pid w' r ↔ first_with_id pid w r.
Proof.
  intros Hs Hid. unfold first_with_id. rewrite Hs.
  apply exist_proper. intros i. rewrite Hid.
  split; intros (H1 & H2 & H3); repeat split; try done;
    intros j r' Hj Hr'; [rewrite <- Hid | rewrite Hid]; eauto.
Qed.

(** Setting the status of an object changes nobody's id. *)
Lemma has_id_set_status (pid : string) (w w' : World) (r r' : ref)
    (o : Project) (st : ProjectStatus) :
  objects w !! r = Some o →
  objects w' = <[r := set_status st o]> (objects w) →
  has_id pid w' r' ↔ has_id pid w r'.
Proof.
  intros Ho Hw'. unfold has_id. rewrite Hw'.
  destruct (decide (r = r')) as [<-|Hne].
  - rewrite list_lookup_insert_eq by (by eapply lookup_lt_Some).
    rewrite Ho. split.
    + intros (? & [= <-] & Hid). by exists o.
    + intros (? & [= <-] & Hid). by eexists.
  - by rewrite list_lookup_insert_ne.
Qed.

(** The two ways [moveProject] can go. *)
Lemma moveProject_cases (pid : string) (st : ProjectStatus) (w : World) :
  (∃ r o, first_with_id pid w r ∧ objects w !! r = Some o ∧ status o ≠ st
          ∧ moveProject pid st w
            = updateListeners
                (set_objects (<[r := set_status st o]> (objects w)) w))
  ∨ (¬ movable pid st w ∧ moveProject pid st w = w).
Proof.
  unfold moveProject.
  destruct (find_array _ _ _) as [r|] eqn:F.
  - apply find_array_first in F.
    destruct (objects w !! r) as [o|] eqn:Ho.
    + destruct (status_eqb (status o) st) eqn:E; simpl.
      * right. split; [|done]. intros (r' & o' & Hr' & Ho' & Hne).
        rewrite (first_with_id_unique _ _ _ _ Hr' F), Ho in Ho'.
        injection Ho' as <-. by apply status_eqb_eq in E.
      * left. exists r, o. repeat split; try done.
        intros Heq. apply status_eqb_eq in Heq. congruence.
    + right. split; [|done]. intros (r' & o' & Hr' & Ho' & Hne).
      rewrite (first_with_id_unique _ _ _ _ Hr' F) in Ho'. congruence.
  - right. split; [|done]. intros (r' & o' & Hr' & _).
    apply find_array_first in Hr'. congruence.
Qed.

(** The world between the status assignment and the notification. *)
Lemma moved_frame (w : World) (r : ref) (o : Project)
    (st : ProjectStatus) :
  store_allocated w →
  let w' :=
    updateListeners (set_objects (<[r := set_status st o]> (objects w)) w) in
  objects w' = <[r := set_status st o]> (objects w)
  ∧ sequence w' = sequence w
  ∧ store_allocated w'
  ∧ notifies_all w w'.
Proof.
  intros Hlt w'. subst w'.
  set (wm := set_objects _ w).
  assert (store_allocated wm) as Hm by done.
  pose proof (updateListeners_frame wm) as Hf.
  destruct (sequence_frame _ _ Hm Hf) as [Hs Hlt'].
  destruct Hf as (Ho & _).
  repeat split; [done|done|done|].
  by apply updateListeners_notifies.
Qed.

(** [addProjects], step by step. *)
Lemma addProjects_spec (random : JS.number) (t d : string)
    (n : JS.number) (w : World) :
  store_allocated w →
  let w' := addProjects random t d n w in
  objects w' = objects w ++ [mkProject (JS.toString random) t d n Active]
  ∧ sequence w' = sequence w ++ [length (objects w)]
  ∧ store_allocated w'
  ∧ notifies_all w w'
  ∧ listeners w' = listeners w
  ∧ alerts w' = alerts w
  ∧ titleValue w' = titleValue w
  ∧ descriptionValue w' = descriptionValue w
  ∧ peopleValue w' = peopleValue w.
Proof.
  intros Hlt w'. subst w'. unfold addProjects.
  set (wm := push _ _ _).
  assert (store_allocated wm) as Hm.
  { unfold store_allocated, wm, push. simpl. by rewrite length_alter. }
  pose proof (updateListeners_frame wm) as Hf.
  destruct (sequence_frame _ _ Hm Hf) as [Hs Hlt'].
  destruct Hf as (Ho & Hp & Hl & Ht & Hd & Hn & Ha & _).
  repeat split; try done.
  - rewrite Hs. unfold sequence, elements, wm, push. simpl.
    rewrite list_lookup_alter_eq.
    destruct (lookup_lt_is_Some_2 _ _ Hlt) as [l ->]. reflexivity.
  - apply updateListeners_notifies; [done|done|].
    unfold wm, push. simpl. by rewrite length_alter.
Qed.

Lemma in_creation_order_allocated (w : World) :
  in_creation_order w → store_allocated w.
Proof. intros H. by eapply lookup_lt_Some. Qed.

Lemma in_creation_order_sequence (w : World) :
  store_allocated w →
  in_creation_order w ↔ sequence w = seq 0 (length (objects w)).
Proof.
  intros Hlt. unfold in_creation_order, sequence, elements.
  destruct (lookup_lt_is_Some_2 _ _ Hlt) as [l ->]. simpl.
  split; congruence.
Qed.

Lemma addProjects_in_creation_order (random : JS.number) (t d : string)
    (n : JS.number) (w : World) :
  in_creation_order w → in_creation_order (addProjects random t d n w).
Proof.
  intros Hw. pose proof (in_creation_order_allocated _ Hw) as Hlt.
  destruct (addProjects_spec random t d n w Hlt) as (Ho & Hs & Hlt' & _).
  apply in_creation_order_sequence; [done|].
  rewrite Hs, Ho, length_app. simpl.
  apply in_creation_order_sequence in Hw; [|done]. rewrite Hw.
  by rewrite Nat.add_1_r, seq_S.
Qed.

Lemma moveProject_in_creation_order (pid : string) (st : ProjectStatus)
    (w : World) :
  in_creation_order w → in_creation_order (moveProject pid st w).
Proof.
  intros Hw. pose proof (in_creation_order_allocated _ Hw) as Hlt.
  destruct (moveProject_cases pid st w)
    as [(r & o & _ & _ & _ & ->)|[_ ->]]; [|done].
  destruct (moved_frame w r o st Hlt) as (Ho & Hs & Hlt' & _).
  apply in_creation_order_sequence; [done|].
  rewrite Hs, Ho, length_insert.
  by apply in_creation_order_sequence.
Qed.

Lemma gatherUserInput_world (w : World) :
  snd (gatherUserInput w) = w
  ∨ (fst (gatherUserInput w) = None
     ∧ snd (gatherUserInput w) = alert "Invalid input!" w).
Proof.
  unfold gatherUserInput.
  destruct (_ || _); [right|left]; done.
Qed.

Lemma handle_in_creation_order (ev : Event) (w : World) :
  in_creation_order w → in_creation_order (handle ev w).
Proof.
  intros Hw. destruct ev as [s|s|s|random|i data]; simpl; try done.
  - unfold handleSubmit.
    destruct (gatherUserInput_world w) as [Hg|[Hn Hg]];
      destruct (gatherUserInput w) as [[[[t d] n]|] w1];
      simpl in *; subst; try done.
    by apply (addProjects_in_creation_order random t d n w).
  - unfold dropHandler. destruct (lanes w !! i); [|done].
    by apply moveProject_in_creation_order.
Qed.

Lemma reachable_in_creation_order (w : World) :
  reachable w → in_creation_order w.
Proof.
  induction 1 as [|w ev _ IH _]; [reflexivity|].
  by apply handle_in_creation_order.
Qed.

Lemma reachable_run (evs : list Event) (w : World) :
  reachable w → Forall possible evs → reachable (run evs w).
Proof.
  revert w. induction evs as [|ev evs IH]; intros w Hw Hevs; [done|].
  inversion Hevs; subst. apply IH; [|done]. by constructor.
Qed.

Lemma deliveries_same (w : World) : deliveries w w = [].
Proof. unfold deliveries. apply drop_all. Qed.

Lemma heap_ok_elements (a : aref) (w : World) :
  heap_ok w → all_allocated a w.
Proof.
  intros H. unfold all_allocated, elements.
  destruct (arrays w !! a) as [l|] eqn:E; [|constructor].
  by apply (Forall_lookup_1 _ _ _ _ H E).
Qed.

Lemma heap_ok_new_array (l : list ref) (w : World) :
  heap_ok w → Forall (λ r, (r < length (objects w))%nat) l →
  heap_ok (snd (new_array l w)).
Proof.
  intros H Hl. unfold heap_ok, new_array. simpl.
  apply Forall_app. split; [done|]. by constructor.
Qed.

Lemma Forall_filter {A} (P : A → Prop) (f : A → bool) (l : list A) :
  Forall P l → Forall P (List.filter f l).
Proof.
  induction 1 as [|x l Hx _ IH]; simpl; [constructor|].
  destruct (f x); [by constructor|done].
Qed.

Lemma heap_ok_call_listener (l : Listener) (a : aref) (w : World) :
  heap_ok w → heap_ok (call_listener l a w).
Proof.
  intros H. destruct l as [i]. unfold call_listener.
  destruct (lanes w !! i) as [lane|]; [|done].
  pose proof (heap_ok_new_array
                (List.filter (on_object (relevant (type lane)) w)
                   (elements a w)) w H
                (Forall_filter _ _ _ (heap_ok_elements a w H))) as H'.
  by destruct (type lane).
Qed.

(** A listener is only ever called with an array of projects. *)
Lemma heap_ok_notify (l : Listener) (w : World) :
  heap_ok w →
  heap_ok (notify w l)
  ∧ all_allocated (length (arrays w))
      (set_notified (notified w ++ [(l, length (arrays w))])
         (snd (slice (projects w) w))).
Proof.
  intros H. unfold notify.
  pose proof (heap_ok_new_array (elements (projects w) w) w H
                (heap_ok_elements _ w H)) as H'.
  split.
  - by apply heap_ok_call_listener.
  - by apply heap_ok_elements.
Qed.

Lemma heap_ok_updateListeners (w : World) :
  heap_ok w → heap_ok (updateListeners w).
Proof.
  unfold updateListeners. generalize (listeners w) as ls.
  intros ls. revert w. induction ls as [|l ls IH]; intros w H; [done|].
  simpl. by apply IH, heap_ok_notify.
Qed.

Lemma heap_ok_addProjects (random : JS.number) (t d : string)
    (n : JS.number) (w : World) :
  heap_ok w → heap_ok (addProjects random t d n w).
Proof.
  intros H. apply heap_ok_updateListeners.
  unfold heap_ok, push. simpl. rewrite length_app. simpl.
  assert (Forall (Forall (λ r, (r < length (objects w) + 1)%nat))
            (arrays w)) as H'.
  { eapply Forall_impl; [exact H|]. simpl. intros l Hl.
    eapply Forall_impl; [exact Hl|]. simpl. lia. }
  apply Forall_alter; [done|].
  intros l Hl Pl. apply Forall_app. split; [done|].
  constructor; [lia|constructor].
Qed.

Lemma heap_ok_moveProject (pid : string) (st : ProjectStatus) (w : World) :
  heap_ok w → heap_ok (moveProject pid st w).
Proof.
  intros H. destruct (moveProject_cases pid st w)
    as [(r & o & _ & _ & _ & ->)|[_ ->]]; [|done].
  apply heap_ok_updateListeners.
  unfold heap_ok. simpl. by rewrite length_insert.
Qed.

Lemma heap_ok_handle (ev : Event) (w : World) :
  heap_ok w → heap_ok (handle ev w).
Proof.
  intros H. destruct ev as [s|s|s|random|i data]; simpl; try done.
  - unfold handleSubmit.
    destruct (gatherUserInput_world w) as [Hg|[Hn Hg]];
      destruct (gatherUserInput w) as [[[[t d] n]|] w1];
      simpl in *; subst; try done.
    by apply (heap_ok_addProjects random t d n w).
  - unfold dropHandler. destruct (lanes w !! i); [|done].
    by apply heap_ok_moveProject.
Qed.

Lemma reachable_heap_ok (w : World) : reachable w → heap_ok w.
Proof.
  induction 1 as [|w ev _ IH _]; [by repeat constructor|].
  by apply heap_ok_handle.
Qed.

End Store.

(** ** Properties of the store *)

Section StoreClaims.

Import App.
Local Open Scope string_scope.
Local Open Scope list_scope.

(** C1 (amended).  For every title, description and people value, valid
    or not, and every value [random] returned by [Math.random()],
    [addProjects] increases the length of the store's sequence by
    exactly one, appends the new project at its end and leaves the
    earlier objects as they were; the new project has status Active
    and its id is the string form of [random].  The store does not
    compare that id with the earlier ones: it is distinct from all of
    them exactly when the string form of [random] is. *)
Theorem addProjects_appends (random : JS.number) (t d : string)
    (n : JS.number) (w : World) :
  store_allocated w →
  let w' := addProjects random t d n w in
  length (sequence w') = S (length (sequence w))
  ∧ sequence w' = sequence w ++ [length (objects w)]
  ∧ (∀ r o, objects w !! r = Some o → objects w' !! r = Some o)
  ∧ (∃ new,
       objects w' !! length (objects w) = Some new
       ∧ length (objects w') = S (length (objects w))
       ∧ status new = Active
       ∧ id new = JS.toString random
       ∧ title new = t ∧ description new = d ∧ people new = n
       ∧ ((∀ r o, objects w !! r = Some o → id o ≠ id new)
          ↔ (∀ o, o ∈ objects w → id o ≠ JS.toString random))).
Proof.
  intros Hlt w'.
  destruct (addProjects_spec random t d n w Hlt) as (Ho & Hs & _).
  fold w' in Ho, Hs. repeat split.
  - rewrite Hs, length_app. simpl. lia.
  - done.
  - intros r o Hr. rewrite Ho. rewrite lookup_app_l; [done|].
    by eapply lookup_lt_Some.
  - eexists. split; [by rewrite Ho, list_lookup_middle|].
    split; [rewrite Ho, length_app; simpl; lia|].
    repeat split; simpl.
    + intros H o Ho'. apply list_elem_of_lookup in Ho' as [r Hr]. eauto.
    + intros H r o Hr. apply H. apply list_elem_of_lookup. eauto.
Qed.

Lemma addProjects_appends_witness :
  store_allocated one_project
  ∧ sequence (addProjects half "Write docs" "Describe the REST API"
                (JS.of_Z 2) one_project)
    = sequence one_project ++ [length (objects one_project)].
Proof.
  assert (store_allocated one_project) as H
    by (unfold store_allocated; vm_compute; lia).
  split; [exact H|].
  exact (proj1 (proj2
    (addProjects_appends half "Write docs" "Describe the REST API"
       (JS.of_Z 2) one_project H))).
Defined.

(** C1, as stated, fails: [Math.random()] may return the same number
    twice.  With 0.5 drawn for both of two valid submissions the board
    holds two projects with the id ["0.5"]. *)
Lemma addProjects_id_not_fresh :
  reachable one_project
  ∧ is_random half = true
  ∧ same_draw_twice
    = clearInputs
        (addProjects half "Write docs" "Describe the REST API"
           (JS.StringToNumber "2")
           (run (fill "Write docs" "Describe the REST API" "2")
              one_project))
  ∧ sequence same_draw_twice = [0; 1]%nat
  ∧ id <$> objects same_draw_twice !! 0%nat = Some "0.5"
  ∧ id <$> objects same_draw_twice !! 1%nat = Some "0.5".
Proof.
  split.
  - apply reachable_run; [constructor|].
    repeat constructor.
  - vm_compute. repeat split.
Qed.








(** C8.  In every reachable world the store's sequence lists the
    Project objects in the order they were created.  [addProjects]
    only appends: the sequence and the objects each gain one element
    at the end.  [moveProject] leaves the sequence as it is and
    changes at most the status of one object.  No event of the page
    removes or reorders anything: the old sequence is a prefix of the
    new one. *)
Theorem sequence_in_creation_order (w : World) :
  reachable w →
  sequence w = seq 0 (length (objects w))
  ∧ (∀ random t d n,
       let w' := addProjects random t d n w in
       sequence w' = sequence w ++ [length (objects w)]
       ∧ objects w'
         = objects w ++ [mkProject (JS.toString random) t d n Active])
  ∧ (∀ pid st,
       let w' := moveProject pid st w in
       sequence w' = sequence w
       ∧ (objects w' = objects w
          ∨ ∃ r o, objects w !! r = Some o
                   ∧ objects w' = <[r := set_status st o]> (objects w)))
  ∧ (∀ ev, sequence w `prefix_of` sequence (handle ev w)).
Proof.
  intros Hw. apply reachable_in_creation_order in Hw.
  pose proof (in_creation_order_allocated _ Hw) as Hlt.
  assert (∀ pid st,
            sequence (moveProject pid st w) = sequence w
            ∧ (objects (moveProject pid st w) = objects w
               ∨ ∃ r o, objects w !! r = Some o
                        ∧ objects (moveProject pid st w)
                          = <[r := set_status st o]> (objects w)))
    as Hmove.
  { intros pid st. destruct (moveProject_cases pid st w)
      as [(r & o & Hr & Ho & Hne & ->)|[_ ->]]; [|by split; [|left]].
    destruct (moved_frame w r o st Hlt) as (Ho' & Hs & _).
    split; [done|]. right. by exists r, o. }
  assert (∀ random t d n,
            sequence (addProjects random t d n w)
            = sequence w ++ [length (objects w)]
            ∧ objects (addProjects random t d n w)
              = objects w
                  ++ [mkProject (JS.toString random) t d n Active])
    as Hadd.
  { intros random t d n.
    by destruct (addProjects_spec random t d n w Hlt) as (? & ? & _). }
  split; [by apply in_creation_order_sequence|].
  split; [exact Hadd|]. split; [exact Hmove|].
  intros [s|s|s|random|i data]; simpl; try done.
  - unfold handleSubmit.
    destruct (gatherUserInput_world w) as [Hg|[Hn Hg]];
      destruct (gatherUserInput w) as [[[[t d] n]|] w1];
      simpl in *; subst; try done.
    change (sequence (clearInputs ?v)) with (sequence v).
    destruct (Hadd random t d n) as [-> _]. by eexists.
  - unfold dropHandler. destruct (lanes w !! i) as [lane|]; [|done].
    by destruct (Hmove data
                   (match type lane with
                    | active => Active
                    | finished => Finished
                    end)) as [-> _].
Qed.

Lemma sequence_in_creation_order_witness :
  reachable one_project
  ∧ sequence one_project = seq 0 (length (objects one_project)).
Proof.
  assert (reachable one_project) as H.
  { apply reachable_run; [constructor|]. repeat constructor. }
  split; [exact H|].
  exact (proj1 (sequence_in_creation_order one_project H)).
Defined.

End StoreClaims.

(** ** The lanes *)

Section Lanes.

Import App.
Local Open Scope list_scope.

Context (w : World).

Lemma kept_filter (t : ListType) (a : aref) :
  kept t a w = List.filter (keeps t w) (elements a w).
Proof.
  unfold kept, filter_array, new_array, elements. simpl.
  by rewrite list_lookup_middle.
Qed.

Lemma filter_sublist {A} (f : A → bool) (l : list A) :
  sublist (List.filter f l) l.
Proof.
  induction l as [|x l IH]; simpl; [constructor|].
  destruct (f x); by constructor.
Qed.

Lemma elem_of_filter {A} (f : A → bool) (l : list A) (x : A) :
  x ∈ List.filter f l ↔ x ∈ l ∧ f x = true.
Proof. rewrite !list_elem_of_In. apply filter_In. Qed.

Lemma keeps_one (r : ref) :
  (r < length (objects w))%nat →
  keeps finished w r = negb (keeps active w r).
Proof.
  intros Hr. unfold keeps, on_object.
  destruct (lookup_lt_is_Some_2 _ _ Hr) as [o ->].
  simpl. by destruct (status o).
Qed.

Lemma keeps_not_both (r : ref) :
  keeps active w r = true → keeps finished w r = true → False.
Proof.
  unfold keeps, on_object. destruct (objects w !! r) as [o|]; [|done].
  simpl. by destruct (status o).
Qed.

Lemma filter_partition (l : list ref) :
  Forall (λ r, (r < length (objects w))%nat) l →
  List.filter (keeps active w) l ++ List.filter (keeps finished w) l ≡ₚ l.
Proof.
  induction 1 as [|r l Hr _ IH]; simpl; [done|].
  rewrite (keeps_one r Hr). destruct (keeps active w r); simpl.
  - by rewrite IH.
  - by rewrite <- Permutation_middle, IH.
Qed.

(** C5.  Of an array whose elements are all projects (as every array a
    listener is called with is, [heap_ok_notify]), the Active lane and
    the Finished lane each keep a subsequence, in the order of the
    array; no project is kept by both, every project is kept by one
    of them, and the two subsequences together are a rearrangement of
    the array.  What a lane keeps is what its listener stores in
    [assignedProjects]. *)
Theorem lanes_partition (a : aref) :
  all_allocated a w →
  sublist (kept active a w) (elements a w)
  ∧ sublist (kept finished a w) (elements a w)
  ∧ (∀ r, r ∈ kept active a w → r ∈ kept finished a w → False)
  ∧ (∀ r, r ∈ elements a w → r ∈ kept active a w ∨ r ∈ kept finished a w)
  ∧ kept active a w ++ kept finished a w ≡ₚ elements a w
  ∧ (∀ r, r ∈ kept active a w →
          status <$> objects w !! r = Some Active)
  ∧ (∀ r, r ∈ kept finished a w →
          status <$> objects w !! r = Some Finished)
  ∧ (∀ i lane, lanes w !! i = Some lane →
       let w' := call_listener (LaneListener i) a w in
       ∃ lane', lanes w' !! i = Some lane'
                ∧ type lane' = type lane
                ∧ elements (assignedProjects lane') w'
                  = kept (type lane) a w).
Proof.
  intros Hall. rewrite !kept_filter.
  split; [apply filter_sublist|]. split; [apply filter_sublist|].
  split; [|split; [|split; [|split; [|split]]]].
  - intros r [_ H1]%elem_of_filter [_ H2]%elem_of_filter.
    by apply (keeps_not_both r).
  - intros r Hr. rewrite !elem_of_filter.
    assert (r < length (objects w))%nat as Hlt.
    { unfold all_allocated in Hall. rewrite Forall_forall in Hall.
      by apply Hall. }
    rewrite (keeps_one r Hlt). destruct (keeps active w r); auto.
  - by apply filter_partition.
  - intros r [_ H]%elem_of_filter. unfold keeps, on_object in H.
    destruct (objects w !! r) as [o|]; [|done].
    simpl in *. by destruct (status o).
  - intros r [_ H]%elem_of_filter. unfold keeps, on_object in H.
    destruct (objects w !! r) as [o|]; [|done].
    simpl in *. by destruct (status o).
  - intros i lane Hlane w'. subst w'. unfold call_listener.
    rewrite Hlane.
    unfold kept, filter_array, new_array, renderProjects. simpl.
    exists (mkProjectList (type lane) (length (arrays w))). split.
    + destruct (type lane); simpl;
        apply list_lookup_insert_eq; by eapply lookup_lt_Some.
    + split; [done|]. by destruct (type lane).
Qed.

End Lanes.

Section LanesWitness.

Import App.
Local Open Scope string_scope.

Lemma lanes_partition_witness :
  all_allocated 0%nat same_draw_twice
  ∧ (kept active 0%nat same_draw_twice
     ++ kept finished 0%nat same_draw_twice)%list
    ≡ₚ elements 0%nat same_draw_twice.
Proof.
  assert (all_allocated 0%nat same_draw_twice) as H.
  { unfold all_allocated. vm_compute. repeat constructor. }
  split; [exact H|].
  exact (proj1 (proj2 (proj2 (proj2 (proj2
    (lanes_partition same_draw_twice 0%nat H)))))).
Defined.

End LanesWitness.

(** ** The validator *)

Section Validator.

Import App.
Local Open Scope string_scope.

Lemma required_check (v : string + JS.number) :
  negb (JS.length (JS.trim (value_toString v)) =? 0)%Z
  = negb (blank (value_toString v)).
Proof. by rewrite trim_empty. Qed.

Lemma ge_of_Z (a b : Z) : JS.ge (JS.of_Z a) (JS.of_Z b) = (b <=? a)%Z.
Proof.
  unfold JS.ge, JS.of_Z, JS.compare, JS.compare_finite. simpl.
  rewrite !Z.mul_1_r.
  destruct (Z.compare_spec a b); symmetry;
    [apply Z.leb_le | apply Z.leb_gt | apply Z.leb_le]; lia.
Qed.

(** C6.  [validator] is a total function of its argument, and it
    returns true exactly when every configured constraint that applies
    to the type of the value is satisfied.  For a number the length
    bounds make no difference, for a string the numeric bounds make
    none. *)
Theorem validator_contract :
  (∀ arg, validator arg = true ↔ constraints_satisfied arg)
  ∧ (∀ v r a b a' b' mn mx,
       validator (mkValidatable (inr v) r a b mn mx)
       = validator (mkValidatable (inr v) r a' b' mn mx))
  ∧ (∀ s r a b mn mx mn' mx',
       validator (mkValidatable (inl s) r a b mn mx)
       = validator (mkValidatable (inl s) r a b mn' mx')).
Proof.
  split; [|split].
  - intros [v r a b mn mx]. unfold validator, constraints_satisfied.
    simpl. rewrite required_check.
    destruct (blank (value_toString v)) eqn:Hb;
      destruct r as [[]|], v as [s|x], a as [a|], b as [b|],
        mn as [mn|], mx as [mx|]; simpl;
      repeat match goal with
        | |- context [JS.ge ?x ?y] => destruct (JS.ge x y) eqn:?
        | |- context [JS.le ?x ?y] => destruct (JS.le x y) eqn:?
        end; simpl;
      (split;
       [ intros H; try discriminate H;
         repeat split; intros; simplify_eq; done
       | intros (H1 & H2 & H3 & H4 & H5);
         try (specialize (H1 eq_refl));
         try (specialize (H2 _ _ eq_refl eq_refl));
         try (specialize (H3 _ _ eq_refl eq_refl));
         try (specialize (H4 _ _ eq_refl eq_refl));
         try (specialize (H5 _ _ eq_refl eq_refl));
         congruence ]).
  - intros. unfold validator. simpl. by destruct a, b, a', b'.
  - intros. unfold validator. simpl. by destruct mn, mx, mn', mx'.
Qed.

(** The four sample calls of the specification. *)
Example validator_samples :
  validator (mkValidatable (inl "") (Some true) None None None None)
  = false
  ∧ validator (mkValidatable (inl "hello") (Some true)
                 (Some (JS.of_Z 5)) None None None) = true
  ∧ validator (mkValidatable (inr (JS.of_Z 3)) None None None
                 (Some (JS.of_Z 0)) (Some (JS.of_Z 5))) = true
  ∧ validator (mkValidatable (inr (JS.of_Z 7)) None None None
                 (Some (JS.of_Z 0)) (Some (JS.of_Z 5))) = false.
Proof. by vm_compute. Qed.

End Validator.

(** ** The form *)

Section Form.

Import App.
Local Open Scope string_scope.
Local Open Scope list_scope.

Lemma gatherUserInput_form_valid (w : World) :
  gatherUserInput w
  = if form_valid w
    then (Some (titleValue w, descriptionValue w,
                JS.StringToNumber (peopleValue w)), w)
    else (None, alert "Invalid input!" w).
Proof.
  unfold gatherUserInput, form_valid, validator. simpl.
  rewrite !trim_empty, ge_of_Z.
  fold (blank (titleValue w)) (blank (descriptionValue w)).
  rewrite (starts_visible_not_blank _ (toString_visible _)). simpl.
  destruct (blank (titleValue w)), (blank (descriptionValue w)),
    (5 <=? JS.length (descriptionValue w))%Z,
    (JS.ge (JS.StringToNumber (peopleValue w)) (JS.of_Z 0)),
    (JS.le (JS.StringToNumber (peopleValue w)) (JS.of_Z 5));
    reflexivity.
Qed.

Lemma handleSubmit_form_valid (random : JS.number) (w : World) :
  handleSubmit random w
  = if form_valid w
    then clearInputs
           (addProjects random (titleValue w) (descriptionValue w)
              (JS.StringToNumber (peopleValue w)) w)
    else alert "Invalid input!" w.
Proof.
  unfold handleSubmit. rewrite gatherUserInput_form_valid.
  by destruct (form_valid w).
Qed.

(** C7.  A submission does one of two things, according to the three
    field validations.  If one of them fails, the alert ["Invalid
    input!"] is shown and nothing else changes: no project, no
    notification, and the three fields keep their values.  If all
    pass, [addProjects] is called once with the title, the description
    and the people field as a number, then the three fields are
    emptied, and no alert is shown. *)
Theorem handleSubmit_either (random : JS.number) (w : World) :
  let w' := handleSubmit random w in
  form_valid w
  = validator (mkValidatable (inl (titleValue w)) (Some true)
                 None None None None)
    && validator (mkValidatable (inl (descriptionValue w)) (Some true)
                    (Some (JS.of_Z 5)) None None None)
    && validator (mkValidatable (inr (JS.StringToNumber (peopleValue w)))
                    (Some true) None None
                    (Some (JS.of_Z 0)) (Some (JS.of_Z 5)))
  ∧
  if form_valid w
  then
    w' = clearInputs
           (addProjects random (titleValue w) (descriptionValue w)
              (JS.StringToNumber (peopleValue w)) w)
    ∧ objects w'
      = objects w
          ++ [mkProject (JS.toString random) (titleValue w)
                (descriptionValue w)
                (JS.StringToNumber (peopleValue w)) Active]
    ∧ alerts w' = alerts w
    ∧ titleValue w' = "" ∧ descriptionValue w' = ""
    ∧ peopleValue w' = ""
  else
    w' = alert "Invalid input!" w
    ∧ alerts w' = alerts w ++ ["Invalid input!"]
    ∧ objects w' = objects w
    ∧ arrays w' = arrays w
    ∧ deliveries w w' = []
    ∧ titleValue w' = titleValue w
    ∧ descriptionValue w' = descriptionValue w
    ∧ peopleValue w' = peopleValue w.
Proof.
  intros w'. subst w'. split.
  { unfold form_valid, validator. simpl.
    rewrite !trim_empty, ge_of_Z.
    fold (blank (titleValue w)) (blank (descriptionValue w)).
    by rewrite (starts_visible_not_blank _ (toString_visible _)). }
  rewrite handleSubmit_form_valid.
  destruct (form_valid w).
  - destruct (addProjects_frame random (titleValue w)
                (descriptionValue w)
                (JS.StringToNumber (peopleValue w)) w)
      as (Ho & _ & _ & _ & _ & _ & Ha).
    repeat split; done.
  - repeat split. unfold deliveries. simpl. apply drop_all.
Qed.

Lemma le_zero_five_people (w : World) :
  form_valid w = true →
  JS.ge (JS.StringToNumber (peopleValue w)) (JS.of_Z 0) = true
  ∧ JS.le (JS.StringToNumber (peopleValue w)) (JS.of_Z 5) = true.
Proof.
  unfold form_valid. rewrite !andb_true_iff. tauto.
Qed.

(** C9 (amended).  In every reachable world the people attribute of
    every project is a number that is at least 0 and at most 5. *)
Theorem people_between_0_and_5 (w : World) :
  reachable w →
  ∀ o, o ∈ objects w →
       JS.ge (people o) (JS.of_Z 0) = true
       ∧ JS.le (people o) (JS.of_Z 5) = true.
Proof.
  intros Hw. apply Forall_forall.
  induction Hw as [|w ev Hw IH _]; [constructor|].
  destruct ev as [s|s|s|random|i data]; simpl; try done.
  - rewrite handleSubmit_form_valid.
    destruct (form_valid w) eqn:Hv; [|done].
    change (objects (clearInputs ?v)) with (objects v).
    destruct (addProjects_frame random (titleValue w)
                (descriptionValue w)
                (JS.StringToNumber (peopleValue w)) w) as (-> & _).
    apply Forall_app. split; [done|].
    constructor; [|constructor]. by apply le_zero_five_people.
  - unfold dropHandler. destruct (lanes w !! i) as [lane|]; [|done].
    set (st := match type lane with
               | active => Active
               | finished => Finished
               end).
    destruct (moveProject_cases data st w)
      as [(r & o & _ & Ho & _ & ->)|[_ ->]]; [|done].
    destruct (updateListeners_frame
                (set_objects (<[r := set_status st o]> (objects w)) w))
      as (-> & _).
    simpl. apply Forall_insert; [done|].
    rewrite Forall_forall in IH. apply (IH o).
    apply list_elem_of_lookup. eauto.
Qed.

Lemma people_between_0_and_5_witness :
  reachable nobody_assigned
  ∧ ∀ o, o ∈ objects nobody_assigned →
         JS.ge (people o) (JS.of_Z 0) = true
         ∧ JS.le (people o) (JS.of_Z 5) = true.
Proof.
  assert (reachable nobody_assigned) as H.
  { apply reachable_run; [constructor|]. repeat constructor. }
  split; [exact H|].
  exact (people_between_0_and_5 nobody_assigned H).
Defined.

(** C9, as stated, fails: the form accepts [0] in the people field,
    and 0 is not a positive integer. *)
Lemma people_not_positive :
  reachable nobody_assigned
  ∧ ∃ o, o ∈ objects nobody_assigned
         ∧ people o = JS.zero
         ∧ ¬ positive_integer (people o).
Proof.
  split.
  - apply reachable_run; [constructor|]. repeat constructor.
  - exists (mkProject "0.5" "Idle" "Nothing to do here" JS.zero Active).
    split; [vm_compute; by left|]. split; [done|].
    intros (z & Hz & He). simpl in He.
    unfold JS.strict_eq, JS.zero, JS.of_Z, JS.compare, JS.compare_finite
      in He.
    simpl in He. destruct z; simpl in He; try discriminate; lia.
Qed.

(** C10.  [required] is satisfied by every number, because the string
    form of a number is never blank.  The empty string coerces to 0,
    0 passes the people validation of the form, and so a submission
    with a valid title and description and an empty people field
    creates a project with people 0. *)
Theorem empty_people_is_zero :
  (∀ v, validator (mkValidatable (inr v) (Some true)
                     None None None None) = true)
  ∧ (∀ v, blank (JS.toString v) = false)
  ∧ JS.StringToNumber "" = JS.of_Z 0
  ∧ validator (mkValidatable (inr (JS.StringToNumber "")) (Some true)
                 None None (Some (JS.of_Z 0)) (Some (JS.of_Z 5))) = true
  ∧ (∀ random w,
       validator (mkValidatable (inl (titleValue w)) (Some true)
                    None None None None) = true →
       validator (mkValidatable (inl (descriptionValue w)) (Some true)
                    (Some (JS.of_Z 5)) None None None) = true →
       peopleValue w = "" →
       objects (handleSubmit random w)
       = objects w
           ++ [mkProject (JS.toString random) (titleValue w)
                 (descriptionValue w) (JS.of_Z 0) Active]).
Proof.
  assert (∀ v, blank (JS.toString v) = false) as Hb.
  { intros v. apply starts_visible_not_blank, toString_visible. }
  assert (validator
            (mkValidatable (inr (JS.StringToNumber "")) (Some true)
               None None (Some (JS.of_Z 0)) (Some (JS.of_Z 5))) = true)
    as Hz by (vm_compute; reflexivity).
  split; [|split; [done|split; [done|split; [done|]]]].
  - intros v. unfold validator. simpl. by rewrite toString_not_blank.
  - intros random w Ht Hd Hp.
    unfold handleSubmit, gatherUserInput. rewrite Ht, Hd, Hp, Hz. simpl.
    change (JS.StringToNumber "") with (JS.of_Z 0).
    by destruct (addProjects_frame random (titleValue w)
                   (descriptionValue w) (JS.of_Z 0) w) as (-> & _).
Qed.

Lemma empty_people_is_zero_witness :
  peopleValue people_left_empty = ""
  ∧ objects (handleSubmit half people_left_empty)
    = [mkProject "0.5" "Idle" "Nothing to do here" (JS.of_Z 0) Active].
Proof.
  split; [reflexivity|].
  exact (proj2 (proj2 (proj2 (proj2 empty_people_is_zero)))
           half people_left_empty
           ltac:(vm_compute; reflexivity) ltac:(vm_compute; reflexivity)
           ltac:(vm_compute; reflexivity)).
Defined.

End Form.

(** ** The board shows the store *)

Section BoardInvariant.

Import App Board.
Local Open Scope list_scope.

Lemma lookup_app_second {A} (l k : list A) (x y : A) :
  ((l ++ [x; y]) ++ k) !! S (length l) = Some y.
Proof.
  rewrite lookup_app_l by (rewrite length_app; simpl; lia).
  rewrite lookup_app_r by lia.
  by replace (S (length l) - length l)%nat with 1%nat by lia.
Qed.

Lemma call_listener_lane (i : nat) (lane : ProjectList) (a : aref)
    (w : World) :
  lanes w !! i = Some lane →
  call_listener (LaneListener i) a w
  = set_list (type lane)
      (omap (new_ProjectItem w)
         (List.filter (keeps (type lane) w) (elements a w)))
      (set_lanes
         (<[i := mkProjectList (type lane) (length (arrays w))]> (lanes w))
         (set_arrays
            (arrays w
               ++ [List.filter (keeps (type lane) w) (elements a w)])
            w)).
Proof.
  intros Hlane. unfold call_listener. rewrite Hlane.
  unfold filter_array, new_array, renderProjects, elements. simpl.
  by rewrite list_lookup_middle.
Qed.

(** One turn of the notification loop for the listener of lane [i]. *)
Lemma notify_lane (i : nat) (lane : ProjectList) (w : World) :
  lanes w !! i = Some lane →
  let w' := notify w (LaneListener i) in
  frame w w'
  ∧ lanes w'
    = <[i := mkProjectList (type lane) (S (length (arrays w)))]> (lanes w)
  ∧ arrays w'
    = arrays w
        ++ [sequence w; List.filter (keeps (type lane) w) (sequence w)]
  ∧ list_of (type lane) w' = cards (type lane) w
  ∧ (∀ t, t ≠ type lane → list_of t w' = list_of t w).
Proof.
  intros Hlane w'. subst w'. split; [apply notify_spec|].
  unfold notify, slice, new_array.
  rewrite (call_listener_lane i lane); [|done].
  unfold elements. simpl. rewrite list_lookup_middle by done. simpl.
  rewrite length_app, Nat.add_1_r. simpl.
  repeat split.
  - by rewrite <- app_assoc.
  - by destruct (type lane).
  - intros t Ht. by destruct t, (type lane).
Qed.

Lemma cards_frame (t : ListType) (w w' : World) :
  objects w' = objects w → sequence w' = sequence w →
  cards t w' = cards t w.
Proof.
  intros Ho Hs. unfold cards, keeps, on_object, new_ProjectItem.
  by rewrite Ho, Hs.
Qed.

Lemma two_lanes_lookup (w : World) (t : ListType) :
  two_lanes w →
  ∃ lane, lanes w !! lane_index t = Some lane ∧ type lane = t.
Proof.
  intros [_ Hl].
  destruct (lanes w) as [|l0 [|l1 [|]]]; simplify_eq/=.
  destruct t; eauto.
Qed.

(** After a notification the page shows the store. *)
Lemma updateListeners_board (w : World) :
  store_allocated w → two_lanes w →
  two_lanes (updateListeners w)
  ∧ shows_store (updateListeners w)
  ∧ lanes_current (updateListeners w).
Proof.
  intros Hlt [Hls Hty]. unfold updateListeners. rewrite Hls. simpl.
  destruct (lanes w) as [|l0 [|l1 [|]]] eqn:Hlanes; simplify_eq/=.
  destruct l0 as [t0 a0], l1 as [t1 a1]. simpl in *. subst t0 t1.
  destruct (notify_lane 0 (mkProjectList active a0) w)
    as (Hf1 & Hl1 & Ha1 & Hc1 & Ho1); [by rewrite Hlanes|].
  set (w1 := notify w (LaneListener 0)) in *.
  rewrite Hlanes in Hl1. simpl in Hl1.
  destruct (sequence_frame _ _ Hlt Hf1) as [Hs1 Hlt1].
  destruct (notify_lane 1 (mkProjectList finished a1) w1)
    as (Hf2 & Hl2 & Ha2 & Hc2 & Ho2); [by rewrite Hl1|].
  set (w2 := notify w1 (LaneListener 1)) in *.
  rewrite Hl1 in Hl2. simpl in Hl2. cbn [type] in Hc1, Hc2, Ho1, Ho2.
  destruct (sequence_frame _ _ Hlt1 Hf2) as [Hs2 Hlt2].
  pose proof Hf1 as (Hob1 & Hp1 & Hli1 & _).
  pose proof Hf2 as (Hob2 & Hp2 & Hli2 & _).
  split; [|split].
  - split; [congruence|by rewrite Hl2].
  - intros [|].
    + rewrite (Ho2 active) by done. rewrite Hc1.
      symmetry. apply cards_frame; congruence.
    + rewrite Hc2. symmetry. by apply cards_frame.
  - intros i lane Hi. rewrite Hl2 in Hi. unfold elements.
    rewrite Ha2, Ha1.
    assert (∀ t, List.filter (keeps t w2) (sequence w2)
                 = List.filter (keeps t w) (sequence w)) as Hk.
    { intros t. unfold keeps, on_object. by rewrite Hs2, Hs1, Hob2, Hob1. }
    rewrite Hk.
    destruct i as [|[|i]]; simplify_eq/=.
    + by rewrite lookup_app_second.
    + rewrite <- Ha1, <- (app_nil_r (_ ++ [_; _])), lookup_app_second.
      simpl. unfold keeps, on_object. by rewrite Hs1, Hob1.
Qed.

End BoardInvariant.

Section BoardReachable.

Import App Board.
Local Open Scope string_scope.
Local Open Scope list_scope.

Lemma board_ok_inputs (t d n : string) (w : World) :
  board_ok w → board_ok (set_inputs t d n w).
Proof.
  intros (H1 & H2 & H3). repeat split; try apply H1.
  - intros [|]; [exact (H2 active)|exact (H2 finished)].
  - exact H3.
Qed.

Lemma board_ok_alert (msg : string) (w : World) :
  board_ok w → board_ok (alert msg w).
Proof.
  intros (H1 & H2 & H3). repeat split; try apply H1.
  - intros [|]; [exact (H2 active)|exact (H2 finished)].
  - exact H3.
Qed.

Lemma board_ok_addProjects (random : JS.number) (t d : string)
    (n : JS.number) (w : World) :
  store_allocated w → two_lanes w →
  board_ok (addProjects random t d n w).
Proof.
  intros Hlt Htwo. apply updateListeners_board; [|done].
  unfold store_allocated, push. simpl. by rewrite length_alter.
Qed.

Lemma board_ok_moveProject (pid : string) (st : ProjectStatus) (w : World) :
  store_allocated w → board_ok w → board_ok (moveProject pid st w).
Proof.
  intros Hlt Hb. destruct (moveProject_cases pid st w)
    as [(r & o & _ & _ & _ & ->)|[_ ->]]; [|done].
  apply updateListeners_board; [done|apply Hb].
Qed.

Lemma board_ok_handle (ev : Event) (w : World) :
  store_allocated w → board_ok w → board_ok (handle ev w).
Proof.
  intros Hlt Hb.
  destruct ev as [s|s|s|random|i data]; simpl;
    try by apply board_ok_inputs.
  - rewrite handleSubmit_form_valid. destruct (form_valid w).
    + apply board_ok_inputs, board_ok_addProjects; [done|apply Hb].
    + by apply board_ok_alert.
  - unfold App.dropHandler. destruct (lanes w !! i); [|done].
    by apply board_ok_moveProject.
Qed.

Lemma reachable_board_ok (w : World) : reachable w → board_ok w.
Proof.
  induction 1 as [|w ev Hw IH _].
  - split; [done|]. split; [by intros [|]|].
    intros [|[|i]] lane Hi; by simplify_eq/=.
  - apply board_ok_handle; [|done].
    by apply in_creation_order_allocated, reachable_in_creation_order.
Qed.

End BoardReachable.

(** ** What the page shows *)

Section BoardClaims.

Import App Board.
Local Open Scope string_scope.
Local Open Scope list_scope.

Lemma keeps_true (t : ListType) (w : World) (r : ref) :
  keeps t w r = true ↔
  ∃ o, objects w !! r = Some o ∧ status o = status_of t.
Proof.
  unfold keeps, on_object. destruct (objects w !! r) as [o|].
  - split.
    + intros H. exists o. split; [done|].
      destruct t; by apply status_eqb_eq.
    + intros (? & [= <-] & H).
      destruct t; by apply status_eqb_eq.
  - split; [done|]. by intros (? & ? & _).
Qed.

Lemma elem_of_cards (t : ListType) (w : World) (item : ProjectItem) :
  item ∈ cards t w ↔
  ∃ o, project item ∈ sequence w
       ∧ objects w !! project item = Some o
       ∧ status o = status_of t
       ∧ item = mkProjectItem (project item) (id o) (title o) (persons o)
                  (description o).
Proof.
  unfold cards. rewrite list_elem_of_omap. split.
  - intros (r & [Hr Hk]%elem_of_filter & Hitem).
    apply keeps_true in Hk as (o & Ho & Hst).
    unfold new_ProjectItem in Hitem. rewrite Ho in Hitem.
    injection Hitem as <-. simpl. by exists o.
  - intros (o & Hr & Ho & Hst & Hitem). exists (project item). split.
    + apply elem_of_filter. split; [done|]. apply keeps_true. eauto.
    + unfold new_ProjectItem. rewrite Ho. by rewrite <- Hitem.
Qed.

Lemma cards_projects (t : ListType) (w : World) :
  project <$> cards t w = List.filter (keeps t w) (sequence w).
Proof.
  unfold cards. induction (sequence w) as [|r l IH]; simpl; [done|].
  destruct (keeps t w r) eqn:Hk; [|done]. simpl.
  apply keeps_true in Hk as (o & Ho & _).
  unfold new_ProjectItem at 1. rewrite Ho. simpl. f_equal. exact IH.
Qed.

Lemma reachable_sequence (w : World) :
  reachable w → sequence w = seq 0 (length (objects w)).
Proof.
  intros Hw. apply reachable_in_creation_order in Hw.
  by apply in_creation_order_sequence;
    [apply in_creation_order_allocated|].
Qed.

(** X1.  In every reachable world each lane shows exactly what
    [renderProjects] would build from the store as it is now: one item
    for each project of the lane's status, in the order of the store,
    carrying that project's id, title, persons label and description;
    and the lane's [assignedProjects] is the store's sequence filtered
    by status. *)
Theorem board_shows_store (w : World) :
  reachable w →
  (∀ t, list_of t w = cards t w)
  ∧ (∀ t, ∃ lane,
       lanes w !! lane_index t = Some lane
       ∧ type lane = t
       ∧ elements (assignedProjects lane) w
         = List.filter (keeps t w) (sequence w))
  ∧ (∀ t item, item ∈ list_of t w ↔
       ∃ o, (project item < length (objects w))%nat
            ∧ objects w !! project item = Some o
            ∧ status o = status_of t
            ∧ item = mkProjectItem (project item) (id o) (title o)
                       (persons o) (description o)).
Proof.
  intros Hw. destruct (reachable_board_ok w Hw) as (Htwo & Hshow & Hcur).
  split; [exact Hshow|]. split.
  - intros t. destruct (two_lanes_lookup w t Htwo) as (lane & Hl & Ht).
    exists lane. split; [done|]. split; [done|].
    rewrite <- Ht. by apply (Hcur (lane_index t)).
  - intros t item. rewrite Hshow, elem_of_cards.
    rewrite (reachable_sequence w Hw).
    split; intros (o & Hr & Ho & Hrest); exists o; split; try done.
    + by eapply lookup_lt_Some.
    + apply elem_of_seq. lia.
Qed.

Lemma board_shows_store_witness :
  reachable same_draw_twice
  ∧ list_of active same_draw_twice = cards active same_draw_twice.
Proof.
  assert (reachable same_draw_twice) as H.
  { apply reachable_run; [|repeat constructor].
    apply reachable_run; [constructor|repeat constructor]. }
  split; [exact H|].
  exact (proj1 (board_shows_store same_draw_twice H) active).
Defined.

(** X2.  In every reachable world every project is on the board exactly
    once: the projects shown in the two lanes together are a
    rearrangement of all projects created, and the two lanes hold as
    many items as there are projects. *)
Theorem every_project_shown_once (w : World) :
  reachable w →
  (project <$> active_list w) ++ (project <$> finished_list w)
    ≡ₚ seq 0 (length (objects w))
  ∧ (length (active_list w) + length (finished_list w))%nat
    = length (objects w).
Proof.
  intros Hw. destruct (reachable_board_ok w Hw) as (_ & Hshow & _).
  pose proof (Hshow active) as Ha. pose proof (Hshow finished) as Hf.
  simpl in Ha, Hf.
  assert ((project <$> active_list w) ++ (project <$> finished_list w)
            ≡ₚ seq 0 (length (objects w))) as Hp.
  { rewrite Ha, Hf, !cards_projects.
    rewrite <- (reachable_sequence w Hw).
    apply filter_partition.
    apply (heap_ok_elements (projects w) w), reachable_heap_ok, Hw. }
  split; [exact Hp|].
  apply Permutation_length in Hp.
  by rewrite length_app, !length_fmap, length_seq in Hp.
Qed.

Lemma every_project_shown_once_witness :
  reachable same_draw_twice
  ∧ (length (active_list same_draw_twice)
     + length (finished_list same_draw_twice))%nat
    = length (objects same_draw_twice).
Proof.
  assert (reachable same_draw_twice) as H.
  { apply reachable_run; [|repeat constructor].
    apply reachable_run; [constructor|repeat constructor]. }
  split; [exact H|].
  exact (proj2 (every_project_shown_once same_draw_twice H)).
Defined.

Lemma StronglySorted_seq (a n : nat) : StronglySorted lt (seq a n).
Proof.
  revert a. induction n as [|n IH]; intros a; simpl; constructor.
  - apply IH.
  - apply Forall_forall. intros x Hx. apply elem_of_seq in Hx. lia.
Qed.

Lemma StronglySorted_filter {A} (R : A → A → Prop) (f : A → bool)
    (l : list A) :
  StronglySorted R l → StronglySorted R (List.filter f l).
Proof.
  induction 1 as [|x l _ IH Hx]; simpl; [constructor|].
  destruct (f x); [|done]. constructor; [done|].
  by apply Forall_filter.
Qed.

(** X3.  In every reachable world the items of each lane are in the
    order in which their projects were created, whatever moves were
    made: a project moved to a lane takes its place by age, not the
    last place. *)
Theorem lanes_in_creation_order (w : World) :
  reachable w → ∀ t, StronglySorted lt (project <$> list_of t w).
Proof.
  intros Hw t. destruct (reachable_board_ok w Hw) as (_ & Hshow & _).
  rewrite Hshow, cards_projects, (reachable_sequence w Hw).
  apply StronglySorted_filter, StronglySorted_seq.
Qed.

Lemma lanes_in_creation_order_witness :
  reachable same_draw_twice
  ∧ StronglySorted lt (project <$> list_of active same_draw_twice).
Proof.
  assert (reachable same_draw_twice) as H.
  { apply reachable_run; [|repeat constructor].
    apply reachable_run; [constructor|repeat constructor]. }
  split; [exact H|].
  exact (lanes_in_creation_order same_draw_twice H active).
Defined.

End BoardClaims.

(** ** Submitting and dropping, seen on the page *)

Section BoardMoves.

Import App Board.
Local Open Scope string_scope.
Local Open Scope list_scope.

Lemma cards_old (t : ListType) (w w' : World) (o : Project)
    (l : list ref) :
  objects w' = objects w ++ [o] →
  Forall (λ r, (r < length (objects w))%nat) l →
  omap (new_ProjectItem w') (List.filter (keeps t w') l)
  = omap (new_ProjectItem w) (List.filter (keeps t w) l).
Proof.
  intros Ho. induction 1 as [|r l Hr _ IH]; simpl; [done|].
  assert (objects w' !! r = objects w !! r) as Hlook
    by (by rewrite Ho, lookup_app_l).
  assert (new_ProjectItem w' r = new_ProjectItem w r) as Hnew
    by (unfold new_ProjectItem; by rewrite Hlook).
  unfold keeps, on_object in *. rewrite Hlook.
  destruct (objects w !! r) as [o'|]; [|exact IH].
  destruct (relevant t o'); [|exact IH]. simpl.
  rewrite Hnew. destruct (new_ProjectItem w r); [f_equal|]; exact IH.
Qed.

(** The items of a lane once a project has been appended to the
    store. *)
Lemma cards_extend (t : ListType) (w w' : World) (o : Project) :
  objects w' = objects w ++ [o] →
  sequence w' = sequence w ++ [length (objects w)] →
  Forall (λ r, (r < length (objects w))%nat) (sequence w) →
  cards t w'
  = cards t w
      ++ (if relevant t o
          then [mkProjectItem (length (objects w)) (id o) (title o)
                  (persons o) (description o)]
          else []).
Proof.
  intros Ho Hs Hall. unfold cards. rewrite Hs, List.filter_app, omap_app.
  f_equal; [by eapply cards_old|].
  simpl. unfold keeps, on_object.
  assert (objects w' !! length (objects w) = Some o) as Hlook
    by (by rewrite Ho, list_lookup_middle).
  rewrite Hlook. destruct (relevant t o); [|done]. simpl.
  unfold new_ProjectItem. by rewrite Hlook.
Qed.

(** X4.  In a reachable world, a submission that passes the validation
    adds exactly one item, as the last item of the Active lane, showing
    the title, the persons label and the description entered; the
    Finished lane is left as it was. *)
Theorem submit_adds_last_active_item (random : JS.number) (w : World) :
  reachable w → form_valid w = true →
  let w' := handleSubmit random w in
  let new :=
    mkProject (JS.toString random) (titleValue w) (descriptionValue w)
      (JS.StringToNumber (peopleValue w)) Active in
  active_list w'
  = active_list w
      ++ [mkProjectItem (length (objects w)) (JS.toString random)
            (titleValue w) (persons new) (descriptionValue w)]
  ∧ finished_list w' = finished_list w.
Proof.
  intros Hw Hv w' new.
  pose proof (reachable_board_ok w Hw) as (_ & Hshow & _).
  pose proof (in_creation_order_allocated _
                (reachable_in_creation_order w Hw)) as Hlt.
  destruct (board_ok_handle (Submit random) w Hlt (reachable_board_ok w Hw))
    as (_ & Hshow' & _).
  simpl in Hshow'. fold w' in Hshow'.
  assert (objects w' = objects w ++ [new]
          ∧ sequence w' = sequence w ++ [length (objects w)])
    as [Ho Hs].
  { subst w'. rewrite handleSubmit_form_valid, Hv.
    change (objects (clearInputs ?v)) with (objects v).
    change (sequence (clearInputs ?v)) with (sequence v).
    by destruct (addProjects_spec random (titleValue w)
                   (descriptionValue w)
                   (JS.StringToNumber (peopleValue w)) w Hlt)
      as (? & ? & _). }
  pose proof (heap_ok_elements (projects w) w (reachable_heap_ok w Hw))
    as Hall.
  pose proof (Hshow' active) as Ha. pose proof (Hshow' finished) as Hf.
  simpl in Ha, Hf. rewrite Ha, Hf.
  rewrite (cards_extend active w w' new Ho Hs Hall).
  rewrite (cards_extend finished w w' new Ho Hs Hall). simpl.
  rewrite app_nil_r.
  by rewrite <- (Hshow active), <- (Hshow finished).
Qed.

Lemma submit_adds_last_active_item_witness :
  reachable one_project
  ∧ form_valid
      (run (fill "Write docs" "Describe the REST API" "2") one_project)
    = true
  ∧ finished_list
      (handleSubmit half
         (run (fill "Write docs" "Describe the REST API" "2") one_project))
    = finished_list
        (run (fill "Write docs" "Describe the REST API" "2") one_project).
Proof.
  assert (reachable
            (run (fill "Write docs" "Describe the REST API" "2")
               one_project)) as H.
  { apply reachable_run; [|repeat constructor].
    apply reachable_run; [constructor|repeat constructor]. }
  assert (form_valid
            (run (fill "Write docs" "Describe the REST API" "2")
               one_project) = true) as V by (vm_compute; reflexivity).
  split; [apply reachable_run; [constructor|repeat constructor]|].
  split; [exact V|].
  exact (proj2 (submit_adds_last_active_item half
                  (run (fill "Write docs" "Describe the REST API" "2")
                     one_project) H V)).
Defined.

(** The lane predicate once the status of [r] has been set. *)
Lemma keeps_set_status (t : ListType) (w w' : World) (r r' : ref)
    (o : Project) (st : ProjectStatus) :
  objects w !! r = Some o →
  objects w' = <[r := set_status st o]> (objects w) →
  keeps t w' r'
  = if decide (r' = r) then status_eqb st (status_of t) else keeps t w r'.
Proof.
  intros Ho Ho'. unfold keeps, on_object. rewrite Ho'.
  destruct (decide (r' = r)) as [->|Hne].
  - rewrite list_lookup_insert_eq by (by eapply lookup_lt_Some).
    by destruct t.
  - by rewrite list_lookup_insert_ne.
Qed.

Lemma dropHandler_lane (w : World) (t : ListType) (data : string) :
  two_lanes w →
  App.dropHandler (lane_index t) data w = moveProject data (status_of t) w.
Proof.
  intros Htwo. destruct (two_lanes_lookup w t Htwo) as (lane & Hl & Ht).
  unfold App.dropHandler. rewrite Hl, Ht. by destruct t.
Qed.

(** X5.  In a reachable world, dropping on a lane the id of a project
    that is in the other status puts the first project with that id
    into the lane dropped on and takes it out of the other lane; every
    other project stays in the lane it was in, and only the status of
    the moved project changes. *)
Theorem drop_moves_item (t : ListType) (pid : string) (r : ref)
    (o : Project) (w : World) :
  reachable w →
  first_with_id pid w r → objects w !! r = Some o →
  status o ≠ status_of t →
  let w' := App.dropHandler (lane_index t) pid w in
  objects w' = <[r := set_status (status_of t) o]> (objects w)
  ∧ r ∈ project <$> list_of t w'
  ∧ (∀ t', t' ≠ t → r ∉ project <$> list_of t' w')
  ∧ (∀ t' r', r' ≠ r →
       r' ∈ project <$> list_of t' w' ↔ r' ∈ project <$> list_of t' w).
Proof.
  intros Hw Hr Ho Hne w'.
  pose proof (reachable_board_ok w Hw) as Hb.
  pose proof Hb as (Htwo & Hshow & _).
  pose proof (in_creation_order_allocated _
                (reachable_in_creation_order w Hw)) as Hlt.
  destruct (board_ok_handle (Drop (lane_index t) pid) w Hlt Hb)
    as (_ & Hshow' & _).
  simpl in Hshow'. fold w' in Hshow'.
  assert (objects w' = <[r := set_status (status_of t) o]> (objects w)
          ∧ sequence w' = sequence w) as [Ho' Hs].
  { subst w'. rewrite dropHandler_lane by done.
    destruct (moveProject_cases pid (status_of t) w)
      as [(r' & o' & Hr' & Ho'' & _ & ->)|[Hnot _]].
    - pose proof (first_with_id_unique _ _ _ _ Hr' Hr) as ->.
      rewrite Ho in Ho''. injection Ho'' as <-.
      by destruct (moved_frame w r o (status_of t) Hlt) as (? & ? & _).
    - destruct Hnot. by exists r, o. }
  assert (r ∈ sequence w) as Hin.
  { destruct Hr as (i & Hi & _). apply list_elem_of_lookup. eauto. }
  assert (∀ t' r', r' ∈ project <$> list_of t' w' ↔
                   r' ∈ sequence w
                   ∧ (if decide (r' = r)
                      then status_eqb (status_of t) (status_of t')
                      else keeps t' w r') = true) as Hmem.
  { intros t' r'. rewrite Hshow', cards_projects, elem_of_filter, Hs.
    by rewrite (keeps_set_status t' w w' r r' o (status_of t) Ho Ho'). }
  split; [done|]. split; [|split].
  - apply Hmem. split; [done|]. rewrite decide_True by done.
    by destruct t.
  - intros t' Ht' [_ H]%Hmem. rewrite decide_True in H by done.
    apply status_eqb_eq in H. by destruct t, t'.
  - intros t' r' Hr'. rewrite Hmem, decide_False by done.
    by rewrite Hshow, cards_projects, elem_of_filter.
Qed.

Lemma one_project_first :
  store_allocated one_project
  ∧ reachable one_project
  ∧ first_with_id "0.5" one_project 0%nat
  ∧ objects one_project !! 0%nat
    = Some (mkProject "0.5" "Build API" "Design and build the REST API"
              (JS.Finite 3 0) Active).
Proof.
  assert (objects one_project !! 0%nat
          = Some (mkProject "0.5" "Build API"
                    "Design and build the REST API" (JS.Finite 3 0)
                    Active)) as O
    by (vm_compute; reflexivity).
  split; [unfold store_allocated; vm_compute; lia|].
  split; [apply reachable_run; [constructor|repeat constructor]|].
  split; [|exact O].
  exists 0%nat. split; [vm_compute; reflexivity|]. split.
  - eexists. split; [exact O|reflexivity].
  - intros j r' Hj. lia.
Defined.

Lemma drop_moves_item_witness :
  reachable one_project
  ∧ first_with_id "0.5" one_project 0%nat
  ∧ 0%nat ∈ project <$> list_of finished
                          (App.dropHandler (lane_index finished) "0.5"
                             one_project).
Proof.
  destruct one_project_first as (_ & H & F & O).
  split; [exact H|]. split; [exact F|].
  refine (proj1 (proj2 (drop_moves_item finished "0.5" 0%nat _ one_project
                          H F O _))).
  discriminate.
Defined.

(** X6.  In a reachable world a drop has no effect at all, and calls no
    listener, when the first project with the dropped id already has
    the status of the lane dropped on, or when no project has the
    dropped id (text dragged in from elsewhere, or no text at all). *)
Theorem drop_without_effect (t : ListType) (data : string) (w : World) :
  reachable w →
  (∀ r o, first_with_id data w r → objects w !! r = Some o →
          status o = status_of t →
          App.dropHandler (lane_index t) data w = w)
  ∧ ((∀ r, r ∈ sequence w → ¬ has_id data w r) →
     App.dropHandler (lane_index t) data w = w).
Proof.
  intros Hw. pose proof (reachable_board_ok w Hw) as (Htwo & _).
  rewrite dropHandler_lane by done.
  destruct (moveProject_cases data (status_of t) w)
    as [(r & o & Hr & Ho & Hne & _)|[_ ->]]; [|done].
  split.
  - intros r' o' Hr' Ho' Hst.
    pose proof (first_with_id_unique _ _ _ _ Hr' Hr) as ->.
    rewrite Ho in Ho'. by injection Ho' as <-.
  - intros Hnone. destruct Hr as (i & Hi & Hid & _).
    destruct (Hnone r); [|done]. apply list_elem_of_lookup. eauto.
Qed.

Lemma drop_without_effect_witness :
  reachable one_project
  ∧ App.dropHandler (lane_index active) "0.5" one_project = one_project.
Proof.
  destruct one_project_first as (_ & H & F & O).
  split; [exact H|].
  exact (proj1 (drop_without_effect active "0.5" one_project H)
           0%nat _ F O eq_refl).
Defined.

(** X7.  [moveProject] goes by id, and only ever touches the first
    project with that id: a project that shares its id with an earlier
    one is never changed by a move, so dropping its item moves the
    earlier project instead. *)
Theorem moveProject_only_first (pid : string) (st : ProjectStatus)
    (r0 r : ref) (w : World) :
  first_with_id pid w r0 → r ≠ r0 →
  objects (moveProject pid st w) !! r = objects w !! r.
Proof.
  intros H0 Hne. destruct (moveProject_cases pid st w)
    as [(r' & o & Hr' & Ho & _ & ->)|[_ ->]]; [|done].
  pose proof (first_with_id_unique _ _ _ _ Hr' H0) as ->.
  destruct (updateListeners_frame
              (set_objects (<[r0 := set_status st o]> (objects w)) w))
    as (-> & _).
  simpl. by rewrite list_lookup_insert_ne.
Qed.

Lemma moveProject_only_first_witness :
  first_with_id "0.5" same_draw_twice 0%nat
  ∧ id <$> objects same_draw_twice !! 1%nat = Some "0.5"
  ∧ objects (moveProject "0.5" Finished same_draw_twice) !! 1%nat
    = objects same_draw_twice !! 1%nat.
Proof.
  assert (first_with_id "0.5" same_draw_twice 0%nat) as F.
  { exists 0%nat. split; [vm_compute; reflexivity|]. split.
    - eexists. split; vm_compute; reflexivity.
    - intros j r' Hj. lia. }
  split; [exact F|]. split; [vm_compute; reflexivity|].
  refine (moveProject_only_first "0.5" Finished 0%nat 1%nat
            same_draw_twice F _).
  discriminate.
Defined.

Lemma handle_arrays (ev : Event) (w : World) :
  ∃ extra,
    arrays (handle ev w) = arrays w ++ extra
    ∨ arrays (handle ev w)
      = alter (λ l, l ++ [length (objects w)]) (projects w) (arrays w)
          ++ extra.
Proof.
  destruct ev as [s|s|s|random|i data]; simpl;
    try (exists []; left; by rewrite app_nil_r).
  - rewrite handleSubmit_form_valid. destruct (form_valid w).
    + change (arrays (clearInputs ?v)) with (arrays v).
      unfold addProjects.
      destruct (updateListeners_frame
                  (push
                     (projects
                        (set_objects
                           (objects w
                              ++ [mkProject (JS.toString random)
                                    (titleValue w) (descriptionValue w)
                                    (JS.StringToNumber (peopleValue w))
                                    Active]) w))
                     (length (objects w))
                     (set_objects
                        (objects w
                           ++ [mkProject (JS.toString random)
                                 (titleValue w) (descriptionValue w)
                                 (JS.StringToNumber (peopleValue w))
                                 Active]) w)))
        as (_ & _ & _ & _ & _ & _ & _ & extra & ->).
      exists extra. by right.
    + exists []. left. by rewrite app_nil_r.
  - unfold App.dropHandler.
    destruct (lanes w !! i) as [lane|];
      [|exists []; left; by rewrite app_nil_r].
    destruct (moveProject_cases data
                (match type lane with
                 | active => Active
                 | finished => Finished
                 end) w)
      as [(r & o & _ & _ & _ & ->)|[_ ->]];
      [|exists []; left; by rewrite app_nil_r].
    destruct (updateListeners_frame
                (set_objects
                   (<[r := set_status
                             (match type lane with
                              | active => Active
                              | finished => Finished
                              end) o]> (objects w)) w))
      as (_ & _ & _ & _ & _ & _ & _ & extra & ->).
    exists extra. by left.
Qed.

(** X8.  An array handed to a listener, or held by a lane, is never
    changed afterwards: whatever event comes next, every array other
    than the store's own keeps its elements.  A later [addProjects]
    grows the store's array only. *)
Theorem snapshots_never_change (ev : Event) (a : aref) (w : World) :
  (a < length (arrays w))%nat → a ≠ projects w →
  arrays (handle ev w) !! a = arrays w !! a.
Proof.
  intros Hlt Hne. destruct (handle_arrays ev w) as (extra & [->| ->]).
  - by rewrite lookup_app_l.
  - rewrite lookup_app_l by (by rewrite length_alter).
    by rewrite list_lookup_alter_ne.
Qed.

Lemma snapshots_never_change_witness :
  (3 < length (arrays one_project))%nat
  ∧ 3%nat ≠ projects one_project
  ∧ arrays (handle (Drop 1 "0.5") one_project) !! 3%nat
    = arrays one_project !! 3%nat.
Proof.
  assert (3 < length (arrays one_project))%nat as H1
    by (vm_compute; lia).
  assert (3%nat ≠ projects one_project) as H2 by (vm_compute; lia).
  split; [exact H1|]. split; [exact H2|].
  exact (snapshots_never_change (Drop 1 "0.5") 3%nat one_project H1 H2).
Defined.

(** X16.  In a reachable world, dropping an Active project's id on the
    Finished lane and then on the Active lane brings back the projects
    and both lanes exactly as they were. *)
Theorem drop_there_and_back (pid : string) (r : ref) (o : Project)
    (w : World) :
  reachable w →
  first_with_id pid w r → objects w !! r = Some o → status o = Active →
  let w' :=
    App.dropHandler (lane_index active) pid
      (App.dropHandler (lane_index finished) pid w) in
  objects w' = objects w
  ∧ sequence w' = sequence w
  ∧ active_list w' = active_list w
  ∧ finished_list w' = finished_list w.
Proof.
  intros Hw Hr Ho Hst w'.
  pose proof (reachable_board_ok w Hw) as Hb.
  pose proof Hb as (Htwo & Hshow & _).
  pose proof (in_creation_order_allocated _
                (reachable_in_creation_order w Hw)) as Hlt.
  set (w1 := App.dropHandler (lane_index finished) pid w) in *.
  pose proof (board_ok_handle (Drop (lane_index finished) pid) w Hlt Hb)
    as Hb1.
  simpl in Hb1. fold w1 in Hb1.
  assert (objects w1 = <[r := set_status Finished o]> (objects w)
          ∧ sequence w1 = sequence w ∧ store_allocated w1)
    as (Ho1 & Hs1 & Hlt1).
  { subst w1. rewrite dropHandler_lane by done. simpl.
    destruct (moveProject_cases pid Finished w)
      as [(r' & o' & Hr' & Ho'' & _ & ->)|[Hnot _]].
    - pose proof (first_with_id_unique _ _ _ _ Hr' Hr) as ->.
      rewrite Ho in Ho''. injection Ho'' as <-.
      by destruct (moved_frame w r o Finished Hlt) as (? & ? & ? & _).
    - destruct Hnot. exists r, o. repeat split; [done..|]. congruence. }
  assert (first_with_id pid w1 r) as Hr1.
  { apply (first_with_id_ext pid w w1); [done| |done].
    intros r'. by eapply has_id_set_status. }
  assert (objects w1 !! r = Some (set_status Finished o)) as Ho1'.
  { rewrite Ho1. apply list_lookup_insert_eq. by eapply lookup_lt_Some. }
  pose proof (board_ok_handle (Drop (lane_index active) pid) w1 Hlt1 Hb1)
    as (_ & Hshow' & _).
  simpl in Hshow'. fold w' in Hshow'.
  assert (objects w' = objects w ∧ sequence w' = sequence w) as [Ho' Hs'].
  { subst w'. rewrite dropHandler_lane by apply Hb1. simpl.
    destruct (moveProject_cases pid Active w1)
      as [(r' & o' & Hr' & Ho'' & _ & ->)|[Hnot _]].
    - pose proof (first_with_id_unique _ _ _ _ Hr' Hr1) as ->.
      rewrite Ho1' in Ho''. injection Ho'' as <-.
      destruct (moved_frame w1 r (set_status Finished o) Active Hlt1)
        as (-> & -> & _).
      split; [|done]. rewrite Ho1, list_insert_insert_eq.
      apply list_insert_id. rewrite Ho. f_equal.
      destruct o. simpl in *. by subst.
    - destruct Hnot. exists r, (set_status Finished o).
      repeat split; [done..|]. simpl. discriminate. }
  split; [done|]. split; [done|].
  pose proof (Hshow' active) as Ha. pose proof (Hshow' finished) as Hf.
  pose proof (Hshow active) as Ha0. pose proof (Hshow finished) as Hf0.
  change (active_list w' = cards active w') in Ha.
  change (finished_list w' = cards finished w') in Hf.
  change (active_list w = cards active w) in Ha0.
  change (finished_list w = cards finished w) in Hf0.
  rewrite Ha, Hf, Ha0, Hf0.
  split; by apply cards_frame.
Qed.

Lemma drop_there_and_back_witness :
  reachable one_project
  ∧ active_list
      (App.dropHandler (lane_index active) "0.5"
         (App.dropHandler (lane_index finished) "0.5" one_project))
    = active_list one_project.
Proof.
  destruct one_project_first as (_ & H & F & O).
  split; [exact H|].
  exact (proj1 (proj2 (proj2
    (drop_there_and_back "0.5" 0%nat _ one_project H F O eq_refl)))).
Defined.

End BoardMoves.

(** ** More on the form and the validator *)

Section FormMore.

Import App Board.
Local Open Scope string_scope.
Local Open Scope list_scope.

(** X9.  A second submit straight after a submit, with no field edited
    in between, never adds a project: if the first one succeeded the
    fields are empty, if it failed they are as invalid as before, and
    either way the second one only shows the alert. *)
Theorem submit_again_alerts (random1 random2 : JS.number) (w : World) :
  let w1 := handleSubmit random1 w in
  handleSubmit random2 w1 = alert "Invalid input!" w1
  ∧ objects (handleSubmit random2 w1) = objects w1.
Proof.
  intros w1.
  assert (form_valid w1 = false) as Hv.
  { subst w1. rewrite handleSubmit_form_valid.
    by destruct (form_valid w) eqn:E. }
  by rewrite handleSubmit_form_valid, Hv.
Qed.

Lemma trim_blank (s : string) : blank s = true → JS.trim s = "".
Proof.
  unfold blank, JS.trim. intros H.
  apply trimStart_nil in H. by rewrite H.
Qed.

(** X10.  A people field that holds nothing but white space counts as
    the number 0 and passes the validation: with a valid title and
    description the submission creates a project with people 0. *)
Theorem blank_people_is_zero (random : JS.number) (w : World) :
  blank (peopleValue w) = true →
  JS.StringToNumber (peopleValue w) = JS.of_Z 0
  ∧ form_valid w
    = negb (blank (titleValue w))
      && (negb (blank (descriptionValue w))
          && (5 <=? JS.length (descriptionValue w))%Z)
  ∧ (form_valid w = true →
     objects (handleSubmit random w)
     = objects w
         ++ [mkProject (JS.toString random) (titleValue w)
               (descriptionValue w) (JS.of_Z 0) Active]).
Proof.
  intros Hb.
  assert (JS.StringToNumber (peopleValue w) = JS.of_Z 0) as Hz.
  { unfold JS.StringToNumber. by rewrite trim_blank. }
  split; [done|]. split.
  - unfold form_valid. rewrite Hz. by rewrite andb_true_r.
  - intros Hv. rewrite handleSubmit_form_valid, Hv, Hz.
    change (objects (clearInputs ?v)) with (objects v).
    by destruct (addProjects_frame random (titleValue w)
                   (descriptionValue w) (JS.of_Z 0) w) as (-> & _).
Qed.

Lemma blank_people_is_zero_witness :
  blank (peopleValue
           (run (fill "Idle" "Nothing to do here" "   ") init)) = true
  ∧ JS.StringToNumber
      (peopleValue (run (fill "Idle" "Nothing to do here" "   ") init))
    = JS.of_Z 0.
Proof.
  assert (blank (peopleValue
                   (run (fill "Idle" "Nothing to do here" "   ") init))
          = true) as H by (vm_compute; reflexivity).
  split; [exact H|].
  exact (proj1 (blank_people_is_zero half _ H)).
Defined.

(** X11.  NaN fails every numeric bound: [validator] rejects NaN as soon
    as [min] or [max] is configured, whatever the bound, and accepts it
    when neither is.  So a people field that is not a numeric literal
    is always answered with the alert and never creates a project. *)
Theorem NaN_is_rejected :
  (∀ r a b mn mx,
     validator (mkValidatable (inr JS.NaN) r a b mn mx)
     = match mn, mx with None, None => true | _, _ => false end)
  ∧ (∀ random w,
       JS.StringToNumber (peopleValue w) = JS.NaN →
       handleSubmit random w = alert "Invalid input!" w).
Proof.
  split.
  - intros r a b mn mx.
    by destruct r as [[]|], a, b, mn, mx.
  - intros random w Hn. rewrite handleSubmit_form_valid.
    unfold form_valid. rewrite Hn. simpl.
    by rewrite !andb_false_r.
Qed.

Lemma NaN_is_rejected_witness :
  JS.StringToNumber
    (peopleValue (run (fill "Idle" "Nothing to do here" "three") init))
  = JS.NaN
  ∧ handleSubmit half (run (fill "Idle" "Nothing to do here" "three") init)
    = alert "Invalid input!"
        (run (fill "Idle" "Nothing to do here" "three") init).
Proof.
  assert (JS.StringToNumber
            (peopleValue
               (run (fill "Idle" "Nothing to do here" "three") init))
          = JS.NaN) as H by (vm_compute; reflexivity).
  split; [exact H|].
  exact (proj2 NaN_is_rejected half _ H).
Defined.

Lemma length_append (s t : string) :
  String.length (s ++ t)%string = (String.length s + String.length t)%nat.
Proof. induction s as [|c s IH]; simpl; [done|]. by rewrite IH. Qed.

(** X13.  The persons label is the singular ["1 person assigned"]
    exactly when people is 1; for every other number it is the number
    followed by [" persons assigned"], 0 included. *)
Theorem persons_singular (o : Project) :
  (persons o = "1 person assigned"
   ↔ JS.strict_eq (people o) (JS.of_Z 1) = true)
  ∧ (JS.strict_eq (people o) (JS.of_Z 1) = false →
     persons o
     = (JS.toString (people o) ++ " persons assigned")%string).
Proof.
  unfold persons. destruct (JS.strict_eq (people o) (JS.of_Z 1)).
  - split; [done|]. discriminate.
  - split; [|done]. split; [|discriminate]. intros H.
    apply (f_equal String.length) in H.
    rewrite length_append in H.
    pose proof (toString_visible (people o)) as Hv.
    destruct (JS.toString (people o)); simpl in *; [done|lia].
Qed.

Lemma persons_singular_witness :
  JS.strict_eq
    (people (mkProject "0.5" "Idle" "Nothing to do here" (JS.of_Z 0)
               Active)) (JS.of_Z 1) = false
  ∧ persons (mkProject "0.5" "Idle" "Nothing to do here" (JS.of_Z 0)
               Active)
    = "0 persons assigned".
Proof.
  split; [reflexivity|].
  exact (proj2 (persons_singular
                  (mkProject "0.5" "Idle" "Nothing to do here" (JS.of_Z 0)
                     Active)) eq_refl).
Defined.

End FormMore.

(** ** Subscriptions and drag events *)

Section Drag.

Import App Board.
Local Open Scope string_scope.
Local Open Scope list_scope.

Lemma notifies_all_listeners (w w' : World) :
  notifies_all w w' → (deliveries w w').*1 = listeners w'.
Proof.
  intros (copies & Hlen & -> & _). apply fst_zip. lia.
Qed.

(** X12.  In every reachable world the subscribers are exactly the two
    lanes, the Active lane first, and no event changes that; an event
    either calls no listener or calls the Active lane's and then the
    Finished lane's, once each. *)
Theorem two_lanes_subscribed (w : World) :
  reachable w →
  listeners w = [LaneListener 0; LaneListener 1]
  ∧ type <$> lanes w = [active; finished]
  ∧ ∀ ev,
      listeners (handle ev w) = listeners w
      ∧ ((deliveries w (handle ev w)).*1 = []
         ∨ (deliveries w (handle ev w)).*1
           = [LaneListener 0; LaneListener 1]).
Proof.
  intros Hw. pose proof (reachable_board_ok w Hw) as Hb.
  pose proof Hb as ([Hls Hty] & _).
  pose proof (in_creation_order_allocated _
                (reachable_in_creation_order w Hw)) as Hlt.
  split; [done|]. split; [done|]. intros ev.
  destruct (board_ok_handle ev w Hlt Hb) as ([Hls' _] & _).
  split; [congruence|].
  destruct ev as [s|s|s|random|i data]; simpl;
    try (left; unfold deliveries; simpl; by rewrite drop_all).
  - rewrite handleSubmit_form_valid. destruct (form_valid w) eqn:Hv.
    + right.
      change (deliveries w (clearInputs ?v)) with (deliveries w v).
      destruct (addProjects_spec random (titleValue w)
                  (descriptionValue w)
                  (JS.StringToNumber (peopleValue w)) w Hlt)
        as (_ & _ & _ & Hall & Hl & _).
      rewrite (notifies_all_listeners _ _ Hall). congruence.
    + left. unfold deliveries. simpl. by rewrite drop_all.
  - unfold App.dropHandler.
    destruct (lanes w !! i) as [lane|];
      [|left; by rewrite deliveries_same].
    destruct (moveProject_cases data
                (match type lane with
                 | active => Active
                 | finished => Finished
                 end) w)
      as [(r & o & _ & _ & _ & ->)|[_ ->]];
      [|left; by rewrite deliveries_same].
    right.
    destruct (moved_frame w r o
                (match type lane with
                 | active => Active
                 | finished => Finished
                 end) Hlt) as (_ & _ & _ & Hall).
    rewrite (notifies_all_listeners _ _ Hall).
    by destruct (updateListeners_frame
                   (set_objects
                      (<[r := set_status
                                (match type lane with
                                 | active => Active
                                 | finished => Finished
                                 end) o]> (objects w)) w))
      as (_ & _ & -> & _).
Qed.

Lemma two_lanes_subscribed_witness :
  reachable one_project
  ∧ listeners one_project = [LaneListener 0; LaneListener 1].
Proof.
  destruct one_project_first as (_ & H & _).
  split; [exact H|].
  exact (proj1 (two_lanes_subscribed one_project H)).
Defined.

(** X14.  Dragging an item shown in a reachable world, with a drag data
    store that starts empty: [dragStartHandler] stores the project's
    id, which is the id of the item's element, as the only item, of
    type text/plain, and allows the move effect; [dragOverHandler] of
    any lane then accepts the drag; and [dropHandler] of lane [i] does
    what [moveProject] does with that id and the lane's status. *)
Theorem drag_and_drop (t : ListType) (item : ProjectItem) (i : nat)
    (dt : DataTransfer) (pg : Page) :
  reachable (world pg) →
  item ∈ list_of t (world pg) →
  items dt = [] →
  ∃ dt',
    dragStartHandler (world pg) item (mkDragEvent (Some dt) false)
    = Some (mkDragEvent (Some dt') false)
    ∧ types dt' = ["text/plain"]
    ∧ getData "text/plain" dt' = element_id item
    ∧ effectAllowed dt' = "move"
    ∧ defaultPrevented
        (fst (dragOverHandler i (mkDragEvent (Some dt') false) pg)) = true
    ∧ Board.dropHandler i (mkDragEvent (Some dt') false) pg
      = Some (mkPage
                (App.dropHandler i (element_id item) (world pg))
                (classList pg)).
Proof.
  intros Hw Hitem Hdt.
  destruct (reachable_board_ok _ Hw) as (_ & Hshow & _).
  rewrite Hshow in Hitem.
  apply elem_of_cards in Hitem as (o & _ & Ho & _ & Hi).
  exists (mkDataTransfer [("text/plain", id o)] "move").
  unfold dragStartHandler, setData. simpl. rewrite Ho, Hdt. simpl.
  split; [done|]. split; [done|].
  unfold getData, Board.dropHandler. simpl.
  rewrite Hi. simpl. done.
Qed.

Lemma drag_and_drop_witness :
  reachable (world (mkPage one_project [[]; []]))
  ∧ mkProjectItem 0 "0.5" "Build API" "3 persons assigned"
      "Design and build the REST API"
    ∈ list_of active (world (mkPage one_project [[]; []]))
  ∧ ∃ dt',
      dragStartHandler one_project
        (mkProjectItem 0 "0.5" "Build API" "3 persons assigned"
           "Design and build the REST API")
        (mkDragEvent (Some (mkDataTransfer [] "uninitialized")) false)
      = Some (mkDragEvent (Some dt') false).
Proof.
  destruct one_project_first as (_ & H & _).
  assert (mkProjectItem 0 "0.5" "Build API" "3 persons assigned"
            "Design and build the REST API"
          ∈ list_of active (world (mkPage one_project [[]; []]))) as Hin
    by (vm_compute; by left).
  split; [exact H|]. split; [exact Hin|].
  destruct (drag_and_drop active _ 1%nat
              (mkDataTransfer [] "uninitialized")
              (mkPage one_project [[]; []]) H Hin eq_refl)
    as (dt' & Hstart & _).
  exists dt'. exact Hstart.
Defined.

Lemma classList_remove_add (c : string) (l : list string) :
  c ∉ l → classList_remove c (classList_add c l) = l.
Proof.
  intros Hc. unfold classList_add, classList_remove.
  assert (List.filter (λ x, negb (String.eqb c x)) l = l) as Hf.
  { induction l as [|x l IH]; simpl; [done|].
    apply not_elem_of_cons in Hc as [Hx Hl].
    destruct (String.eqb_spec c x); [done|]. simpl. by rewrite IH. }
  destruct (existsb (String.eqb c) l); [done|].
  rewrite List.filter_app, Hf. simpl. rewrite String.eqb_refl. simpl.
  apply app_nil_r.
Qed.

Lemma classList_add_elem (c : string) (l : list string) :
  c ∈ classList_add c l.
Proof.
  unfold classList_add. destruct (existsb (String.eqb c) l) eqn:E.
  - apply existsb_exists in E as (x & Hx & Heq).
    apply String.eqb_eq in Heq. subst. by apply list_elem_of_In.
  - apply elem_of_app. right. by left.
Qed.

Lemma classList_add_twice (c : string) (l : list string) :
  classList_add c (classList_add c l) = classList_add c l.
Proof.
  unfold classList_add at 1.
  destruct (existsb (String.eqb c) (classList_add c l)) eqn:E; [done|].
  assert (existsb (String.eqb c) (classList_add c l) = true) as E'.
  { apply existsb_exists. exists c. split.
    - apply list_elem_of_In, classList_add_elem.
    - apply String.eqb_refl. }
  congruence.
Qed.

(** X15.  The highlight of a lane: a drag-over whose first type is
    text/plain puts the class [droppable] on the lane's list, once,
    however often it fires; a drag-leave takes it off again and leaves
    the other classes as they were; a drop does not take it off, so
    after a drop the lane stays highlighted until a drag-leave. *)
Theorem droppable_highlight (i : nat) (dt : DataTransfer) (pg : Page)
    (cl : list string) :
  classList pg !! i = Some cl →
  "droppable" ∉ cl →
  types dt !! 0%nat = Some "text/plain" →
  let event := mkDragEvent (Some dt) false in
  let over := snd (dragOverHandler i event pg) in
  classList over !! i = Some (cl ++ ["droppable"])
  ∧ world over = world pg
  ∧ snd (dragOverHandler i event over) = over
  ∧ dragLeaveHandler i over = pg
  ∧ ∃ dropped,
      Board.dropHandler i event over = Some dropped
      ∧ classList dropped !! i = Some (cl ++ ["droppable"]).
Proof.
  intros Hcl Hnot Hty event over.
  assert (existsb (String.eqb "droppable") cl = false) as Hex.
  { apply not_true_is_false. intros (x & Hx & Heq)%existsb_exists.
    apply String.eqb_eq in Heq. subst. by apply Hnot, list_elem_of_In. }
  assert (over
          = mkPage (world pg)
              (alter (classList_add "droppable") i (classList pg)))
    as Hover.
  { subst over event. unfold dragOverHandler. simpl. by rewrite Hty. }
  assert (classList over !! i = Some (cl ++ ["droppable"])) as Hlook.
  { rewrite Hover. simpl. rewrite list_lookup_alter_eq, Hcl. simpl.
    unfold classList_add. by rewrite Hex. }
  split; [done|]. split; [by rewrite Hover|]. split; [|split].
  - subst event. unfold dragOverHandler. simpl. rewrite Hty. simpl.
    rewrite Hover. simpl. f_equal.
    rewrite list_alter_alter_eq. apply list_alter_ext; [|done].
    intros x _. apply classList_add_twice.
  - rewrite Hover. unfold dragLeaveHandler. simpl.
    destruct pg as [wd cls]. simpl in Hcl. simpl. f_equal.
    rewrite list_alter_alter_eq.
    rewrite <- (list_alter_id (λ x, x) cls i) at 2 by done.
    apply list_alter_ext; [|done].
    intros x Hx. rewrite Hcl in Hx. injection Hx as <-.
    by apply classList_remove_add.
  - eexists. split; [reflexivity|]. exact Hlook.
Qed.

Lemma droppable_highlight_witness :
  classList (mkPage one_project [[]; []]) !! 1%nat = Some []
  ∧ ("droppable" ∉ (@nil string))
  ∧ types (mkDataTransfer [("text/plain", "0.5")] "move") !! 0%nat
    = Some "text/plain"
  ∧ dragLeaveHandler 1
      (snd (dragOverHandler 1
              (mkDragEvent
                 (Some (mkDataTransfer [("text/plain", "0.5")] "move"))
                 false)
              (mkPage one_project [[]; []])))
    = mkPage one_project [[]; []].
Proof.
  assert ("droppable" ∉ (@nil string)) as Hn by apply not_elem_of_nil.
  split; [reflexivity|]. split; [exact Hn|]. split; [reflexivity|].
  exact (proj1 (proj2 (proj2 (proj2
    (droppable_highlight 1
       (mkDataTransfer [("text/plain", "0.5")] "move")
       (mkPage one_project [[]; []]) [] eq_refl Hn eq_refl))))).
Defined.

End Drag.
